(** * EEVEE sampling: sample counters, dimension vector, sampling patterns,
      DoF web pattern, CDF tables

    A shallow embedding of [source/blender/draw/engines/eevee/eevee_sampling.cc].

    Conventions of the embedding.
    - [uint64_t] and [int] values are integers of [Z]; every place where the
      C++ code narrows or wraps is written out with [wrap64] and [to_int].
    - [float] and [double] values are modelled by [float] below: the exact
      rational value of a finite number, plus the IEEE 754 special values
      (NaN and the two infinities) with the IEEE rules for them.  An
      arithmetic operation returns its exact result.  Where [step] and
      [init] store a [double] into a [float], the value is rounded to
      binary32 ([Fl.narrow]).  The two results of [dof_disk_sample_get]
      and the points returned by the sampling patterns ([sample_disk] and
      the like) are the real values of their expressions.  The sign of
      zero is not modelled.
    - The constants and helpers that live in [eevee_sampling.hh] and in the
      BLI/BKE libraries are not part of the translated file.  Constants are
      the fields of [Header]; helpers are either parameters or
      carry a doc comment that says where their definition comes from. *)

From Stdlib Require Import ZArith QArith Qround Qabs Reals Qreals List Bool Lia Psatz.
Import ListNotations.

Set Implicit Arguments.

(* ------------------------------------------------------------------ *)
(** ** Machine integers *)

Module Int.
Local Open Scope Z_scope.

(** Value of an integer expression stored into a [uint64_t]. *)
Definition wrap64 (z : Z) : Z := z mod 2 ^ 64.

(** Value of an integer expression stored into a 32-bit [int]. *)
Definition to_int (z : Z) : Z := (z + 2 ^ 31) mod 2 ^ 32 - 2 ^ 31.

(** Modelled from the spec: [square_i] and [max_ii] of BLI_math_base are not
    in the translated file; section 4.1 has the sample count raised "to at
    least the square of the current viewport pixel-subsampling factor".
    Both take and return [int]. *)
Definition square_i (a : Z) : Z := to_int (a * a).

Definition max_ii (a b : Z) : Z := Z.max (to_int a) (to_int b).

(** Modelled from the spec: [divide_ceil_u] of BLI_math_base is not in the
    translated file; section 4.1 says the sample count is "divided (ceiling)"
    by the step count and "rounded up to a multiple" with it. *)
Definition divide_ceil_u (a b : Z) : Z := (a + b - 1) / b.

End Int.
Import Int.

(* ------------------------------------------------------------------ *)
(** ** Floating-point values *)

Inductive float : Type :=
| NaN
| Inf (negative : bool)
| Fin (q : Q).

Module Fl.

Definition Qlt_bool (x y : Q) : bool := negb (Qle_bool y x).

Definition of_Z (z : Z) : float := Fin (inject_Z z).

Definition zero : float := Fin 0.
Definition one : float := Fin 1.

Definition neg (a : float) : float :=
  match a with
  | NaN => NaN
  | Inf s => Inf (negb s)
  | Fin x => Fin (- x)
  end.

Definition add (a b : float) : float :=
  match a, b with
  | NaN, _ | _, NaN => NaN
  | Inf s, Inf s' => if Bool.eqb s s' then Inf s else NaN
  | Inf s, Fin _ | Fin _, Inf s => Inf s
  | Fin x, Fin y => Fin (x + y)
  end.

Definition sub (a b : float) : float := add a (neg b).

(** IEEE division: [0/0] and [inf/inf] are NaN, a nonzero finite number
    divided by zero is an infinity. *)
Definition div (a b : float) : float :=
  match a, b with
  | NaN, _ | _, NaN => NaN
  | Inf _, Inf _ => NaN
  | Inf s, Fin y => Inf (xorb s (Qlt_bool y 0))
  | Fin _, Inf _ => Fin 0
  | Fin x, Fin y =>
      if Qeq_bool y 0
      then (if Qeq_bool x 0 then NaN else Inf (Qlt_bool x 0))
      else Fin (x / y)
  end.

(** Ordered comparisons; every comparison with NaN is false. *)
Definition le (a b : float) : bool :=
  match a, b with
  | NaN, _ | _, NaN => false
  | Inf true, _ => true
  | _, Inf false => true
  | Inf false, _ => false
  | _, Inf true => false
  | Fin x, Fin y => Qle_bool x y
  end.

Definition lt (a b : float) : bool :=
  match a, b with
  | NaN, _ | _, NaN => false
  | Inf true, Inf true => false
  | Inf true, _ => true
  | Inf false, _ => false
  | Fin _, Inf s => negb s
  | Fin x, Fin y => Qlt_bool x y
  end.

Definition ge (a b : float) : bool := le b a.
Definition gt (a b : float) : bool := lt b a.

(** C++ [==] on floats. *)
Definition eqb (a b : float) : bool :=
  match a, b with
  | Fin x, Fin y => Qeq_bool x y
  | Inf s, Inf s' => Bool.eqb s s'
  | _, _ => false
  end.

(** [floorf]. *)
Definition floor (a : float) : float :=
  match a with
  | Fin x => Fin (inject_Z (Qfloor x))
  | other => other
  end.

(** Modelled from the spec: [fractf] of BLI_math_base is not in the
    translated file; section 4.2 calls its use "a fractional offset shift":
    the fractional part [a - floorf(a)]. *)
Definition fractf (a : float) : float := sub a (floor a).

(** Modelled from the spec: [clamp_f] of BLI_math_base is not in the
    translated file; section 4.4 has the query points "clamped away from the
    exact 0/1 boundary". *)
Definition clamp_f (value lo hi : float) : float :=
  if gt value hi then hi
  else if lt value lo then lo
  else value.

(** [x * 2^t]. *)
Definition scale2 (x : Q) (t : Z) : Q :=
  if (0 <=? t)%Z then x * inject_Z (2 ^ t) else x / inject_Z (2 ^ (- t)).

(** The nearest integer, ties to the even one. *)
Definition round_half_even (x : Q) : Z :=
  let f := Qfloor x in
  let r := x - inject_Z f in
  if Qlt_bool r (1 # 2) then f
  else if Qlt_bool (1 # 2) r then (f + 1)%Z
  else if Z.even f then f else (f + 1)%Z.

(** For [x > 0], the [e] with [2^e <= x < 2^(e+1)]. *)
Definition binary_exponent (x : Q) : Z :=
  let e0 := (Z.log2 (Qnum x) - Z.log2 (Zpos (Qden x)))%Z in
  if Qlt_bool x (scale2 1 e0) then (e0 - 1)%Z else e0.

(** The nearest multiple of [2^t], ties to even. *)
Definition round_to (t : Z) (x : Q) : Q :=
  scale2 (inject_Z (round_half_even (scale2 x (- t)))) t.

(** The binary32 number nearest to [x] (IEEE 754 round to nearest, ties to
    even): 24 significant bits, least exponent -126, overflow to infinity. *)
Definition to_binary32 (x : Q) : float :=
  if Qeq_bool x 0 then Fin 0
  else
    let a := Qabs x in
    let t := (Z.max (binary_exponent a) (-126) - 23)%Z in
    let y := round_to t a in
    if Qle_bool (inject_Z (2 ^ 128)) y then Inf (Qlt_bool x 0)
    else Fin (if Qlt_bool x 0 then - y else y).

(** Conversion of a [double] to [float]. *)
Definition narrow (a : float) : float :=
  match a with
  | Fin x => to_binary32 x
  | other => other
  end.

(** The number is finite, with a value in the half-open unit interval. *)
Definition in_unit (a : float) : Prop :=
  match a with
  | Fin x => 0 <= x /\ x < 1
  | _ => False
  end.

End Fl.

(* ------------------------------------------------------------------ *)
(** ** Low-discrepancy sequence *)

Module Halton.

(** Modelled from the spec: [BLI_halton_2d] and [BLI_halton_3d] (BLI_rand) are
    not in the translated file.  Section 4.2 and the glossary describe them:
    a point of a Halton-style sequence for a 1-based index, "built per-axis
    from digit-reversal in a given prime base", with an additive offset.
    [digit_reversal] mirrors the base-[base] digits of [n] around the radix
    point; one unit of fuel is spent per digit. *)
Fixpoint digit_reversal (fuel : nat) (base n : Z) : Q :=
  match fuel with
  | O => 0
  | S fuel' =>
      if (n <=? 0)%Z then 0
      else (inject_Z (n mod base) + digit_reversal fuel' base (n / base))
           / inject_Z base
  end.

(** An index stored in 64 bits has at most 64 digits in any base. *)
Definition halton_1d (prime : Z) (offset : Q) (n : Z) : float :=
  Fin (offset + digit_reversal 64 prime n).

Definition BLI_halton_2d (primes : Z * Z) (offset : Q * Q) (n : Z)
  : float * float :=
  (halton_1d (fst primes) (fst offset) n,
   halton_1d (snd primes) (snd offset) n).

Definition BLI_halton_3d (primes : Z * Z * Z) (offset : Q * Q * Q) (n : Z)
  : float * float * float :=
  let '(p0, p1, p2) := primes in
  let '(o0, o1, o2) := offset in
  (halton_1d p0 o0 n, halton_1d p1 o1 n, halton_1d p2 o2 n).

End Halton.
Import Halton.

(* ------------------------------------------------------------------ *)
(** ** Data model *)

(** The named slots of [SamplingData::dimensions] that [Sampling::step]
    writes; there are [SAMPLING_DIMENSION_COUNT] of them. *)
Inductive eSamplingDimension : Set :=
| SAMPLING_FILTER_U | SAMPLING_FILTER_V | SAMPLING_TIME | SAMPLING_CLOSURE
| SAMPLING_RAYTRACE_X
| SAMPLING_LENS_U | SAMPLING_LENS_V | SAMPLING_LIGHTPROBE
| SAMPLING_TRANSPARENCY | SAMPLING_AO_U | SAMPLING_AO_V | SAMPLING_AO_W
| SAMPLING_CURVES_U
| SAMPLING_SHADOW_U | SAMPLING_SHADOW_V | SAMPLING_SHADOW_W
| SAMPLING_RAYTRACE_U | SAMPLING_RAYTRACE_V | SAMPLING_RAYTRACE_W
| SAMPLING_SHADOW_I | SAMPLING_SHADOW_J | SAMPLING_SHADOW_K
| SAMPLING_VOLUME_U | SAMPLING_VOLUME_V | SAMPLING_VOLUME_W
| SAMPLING_SHADOW_X | SAMPLING_SHADOW_Y | SAMPLING_SSS_U | SAMPLING_SSS_V
| SAMPLING_UNUSED_0 | SAMPLING_UNUSED_1 | SAMPLING_UNUSED_2.

Scheme Equality for eSamplingDimension.

Definition all_dimensions : list eSamplingDimension :=
  [ SAMPLING_FILTER_U; SAMPLING_FILTER_V; SAMPLING_TIME; SAMPLING_CLOSURE;
    SAMPLING_RAYTRACE_X;
    SAMPLING_LENS_U; SAMPLING_LENS_V; SAMPLING_LIGHTPROBE;
    SAMPLING_TRANSPARENCY; SAMPLING_AO_U; SAMPLING_AO_V; SAMPLING_AO_W;
    SAMPLING_CURVES_U;
    SAMPLING_SHADOW_U; SAMPLING_SHADOW_V; SAMPLING_SHADOW_W;
    SAMPLING_RAYTRACE_U; SAMPLING_RAYTRACE_V; SAMPLING_RAYTRACE_W;
    SAMPLING_SHADOW_I; SAMPLING_SHADOW_J; SAMPLING_SHADOW_K;
    SAMPLING_VOLUME_U; SAMPLING_VOLUME_V; SAMPLING_VOLUME_W;
    SAMPLING_SHADOW_X; SAMPLING_SHADOW_Y; SAMPLING_SSS_U; SAMPLING_SSS_V;
    SAMPLING_UNUSED_0; SAMPLING_UNUSED_1; SAMPLING_UNUSED_2 ].

Definition SAMPLING_DIMENSION_COUNT : nat := length all_dimensions.

(** [SamplingData::dimensions]: one [float] per slot (the assertions of
    [step] compare the slots with [0.0f] and [1.0f]). *)
Definition DimensionVector : Type := eSamplingDimension -> float.

(** [data_.dimensions[d] = v]. *)
Definition dim_set (d : eSamplingDimension) (v : float) (dims : DimensionVector)
  : DimensionVector :=
  fun d' => if eSamplingDimension_beq d' d then v else dims d'.

(** The slots that hold a shifted fraction or the constant 0. *)
Definition is_fraction_slot (d : eSamplingDimension) : bool :=
  match d with
  | SAMPLING_FILTER_U | SAMPLING_FILTER_V
  | SAMPLING_SHADOW_I | SAMPLING_SHADOW_J | SAMPLING_SHADOW_K
  | SAMPLING_VOLUME_U | SAMPLING_VOLUME_V | SAMPLING_VOLUME_W
  | SAMPLING_UNUSED_0 | SAMPLING_UNUSED_1 | SAMPLING_UNUSED_2 => true
  | _ => false
  end.

Record ClampData : Type := {
  sun_threshold : float;
  surface_direct : float;
  surface_indirect : float;
  volume_direct : float;
  volume_indirect : float
}.

(** The fields of [Scene] that the sampling module reads.  Flag tests such
    as [scene->eevee.flag & SCE_EEVEE_DOF_JITTER] are the boolean fields. *)
Record Scene : Type := {
  taa_render_samples : Z;
  taa_samples : Z;
  motion_blur_steps : Z;
  flag_dof_jitter : bool;
  flag_taa_reprojection : bool;
  mode_mblur : bool;
  preview_pixel_size : Z;
  clamp_surface_direct : float;
  clamp_surface_indirect : float;
  clamp_volume_direct : float;
  clamp_volume_indirect : float
}.

(** What the sampling module reads through [inst_]. *)
Record Inst : Type := {
  is_viewport : bool;
  is_image_render : bool;
  is_viewport_image_render : bool;
  is_baking : bool;
  view_layer_samples : Z;
  inst_scene : Scene;
  film_scaling_factor : Z;
  world_sun_threshold : float
}.

(** The declarations of [eevee_sampling.hh] that the translated file uses
    and does not define.  [sampling_web_ring_count_get] is a function of the
    web density and the sample count. *)
Record Header : Type := {
  infinite_sample_count_ : Z;
  interactive_sample_aa_ : Z;
  interactive_sample_raytrace_ : Z;
  interactive_sample_volume_ : Z;
  interactive_sample_max_ : Z;
  interactive_mode_threshold : Z;
  dof_web_density_ : Z;
  sampling_web_ring_count_get : Z -> Z -> Z
}.

(** The members of [Sampling].  Their declarations are in the header; the
    integer members are taken to be [uint64_t], the width at which [step]
    and [init] compute with them ([uint64_t sample_filter = sample_ / ...],
    [uint64_t render_sample_count]). *)
Record Sampling : Type := {
  sample_ : Z;
  sample_count_ : Z;
  dof_ring_count_ : Z;
  dof_sample_count_ : Z;
  motion_blur_steps_ : Z;
  viewport_sample_ : Z;
  reset_ : bool;
  interactive_mode_ : bool;
  data_ : DimensionVector;
  clamp_data_ : ClampData
}.

Definition set_sample (v : Z) (s : Sampling) : Sampling :=
  {| sample_ := v; sample_count_ := sample_count_ s;
     dof_ring_count_ := dof_ring_count_ s;
     dof_sample_count_ := dof_sample_count_ s;
     motion_blur_steps_ := motion_blur_steps_ s;
     viewport_sample_ := viewport_sample_ s; reset_ := reset_ s;
     interactive_mode_ := interactive_mode_ s; data_ := data_ s;
     clamp_data_ := clamp_data_ s |}.

Definition set_sample_count (v : Z) (s : Sampling) : Sampling :=
  {| sample_ := sample_ s; sample_count_ := v;
     dof_ring_count_ := dof_ring_count_ s;
     dof_sample_count_ := dof_sample_count_ s;
     motion_blur_steps_ := motion_blur_steps_ s;
     viewport_sample_ := viewport_sample_ s; reset_ := reset_ s;
     interactive_mode_ := interactive_mode_ s; data_ := data_ s;
     clamp_data_ := clamp_data_ s |}.

Definition set_dof (ring_count dof_sample_count : Z) (s : Sampling) : Sampling :=
  {| sample_ := sample_ s; sample_count_ := sample_count_ s;
     dof_ring_count_ := ring_count;
     dof_sample_count_ := dof_sample_count;
     motion_blur_steps_ := motion_blur_steps_ s;
     viewport_sample_ := viewport_sample_ s; reset_ := reset_ s;
     interactive_mode_ := interactive_mode_ s; data_ := data_ s;
     clamp_data_ := clamp_data_ s |}.

Definition set_motion_blur_steps (v : Z) (s : Sampling) : Sampling :=
  {| sample_ := sample_ s; sample_count_ := sample_count_ s;
     dof_ring_count_ := dof_ring_count_ s;
     dof_sample_count_ := dof_sample_count_ s;
     motion_blur_steps_ := v;
     viewport_sample_ := viewport_sample_ s; reset_ := reset_ s;
     interactive_mode_ := interactive_mode_ s; data_ := data_ s;
     clamp_data_ := clamp_data_ s |}.

Definition set_viewport_sample (v : Z) (s : Sampling) : Sampling :=
  {| sample_ := sample_ s; sample_count_ := sample_count_ s;
     dof_ring_count_ := dof_ring_count_ s;
     dof_sample_count_ := dof_sample_count_ s;
     motion_blur_steps_ := motion_blur_steps_ s;
     viewport_sample_ := v; reset_ := reset_ s;
     interactive_mode_ := interactive_mode_ s; data_ := data_ s;
     clamp_data_ := clamp_data_ s |}.

Definition set_reset (v : bool) (s : Sampling) : Sampling :=
  {| sample_ := sample_ s; sample_count_ := sample_count_ s;
     dof_ring_count_ := dof_ring_count_ s;
     dof_sample_count_ := dof_sample_count_ s;
     motion_blur_steps_ := motion_blur_steps_ s;
     viewport_sample_ := viewport_sample_ s; reset_ := v;
     interactive_mode_ := interactive_mode_ s; data_ := data_ s;
     clamp_data_ := clamp_data_ s |}.

Definition set_interactive_mode (v : bool) (s : Sampling) : Sampling :=
  {| sample_ := sample_ s; sample_count_ := sample_count_ s;
     dof_ring_count_ := dof_ring_count_ s;
     dof_sample_count_ := dof_sample_count_ s;
     motion_blur_steps_ := motion_blur_steps_ s;
     viewport_sample_ := viewport_sample_ s; reset_ := reset_ s;
     interactive_mode_ := v; data_ := data_ s;
     clamp_data_ := clamp_data_ s |}.

Definition set_data (v : DimensionVector) (s : Sampling) : Sampling :=
  {| sample_ := sample_ s; sample_count_ := sample_count_ s;
     dof_ring_count_ := dof_ring_count_ s;
     dof_sample_count_ := dof_sample_count_ s;
     motion_blur_steps_ := motion_blur_steps_ s;
     viewport_sample_ := viewport_sample_ s; reset_ := reset_ s;
     interactive_mode_ := interactive_mode_ s; data_ := v;
     clamp_data_ := clamp_data_ s |}.

Definition set_clamp_data (v : ClampData) (s : Sampling) : Sampling :=
  {| sample_ := sample_ s; sample_count_ := sample_count_ s;
     dof_ring_count_ := dof_ring_count_ s;
     dof_sample_count_ := dof_sample_count_ s;
     motion_blur_steps_ := motion_blur_steps_ s;
     viewport_sample_ := viewport_sample_ s; reset_ := reset_ s;
     interactive_mode_ := interactive_mode_ s; data_ := data_ s;
     clamp_data_ := v |}.

(** A freshly constructed [Sampling]: both counters are zero and no reset is
    pending (the member initialisers of the class). *)
Definition fresh : Sampling :=
  {| sample_ := 0; sample_count_ := 64; dof_ring_count_ := 0;
     dof_sample_count_ := 1; motion_blur_steps_ := 1; viewport_sample_ := 0;
     reset_ := false; interactive_mode_ := false;
     data_ := fun _ => Fl.zero;
     clamp_data_ := {| sun_threshold := Fl.zero; surface_direct := Fl.zero;
                       surface_indirect := Fl.zero; volume_direct := Fl.zero;
                       volume_indirect := Fl.zero |} |}.

(* ------------------------------------------------------------------ *)
(** ** DoF web pattern size *)

(** Modelled from the spec: [sampling_web_sample_count_get] is declared in
    [eevee_sampling.hh], which is not in the translated file.  Section 4.3:
    the web pattern is a set of concentric rings and "ring [k] holds
    [k * density] samples"; the traversal of [dof_disk_sample_get] counts the
    centre as one more sample before the first ring ([samples_passed = 1]).
    A pattern of [ring_count] rings therefore has
    [1 + density * (1 + 2 + ... + ring_count)] samples. *)
Definition sampling_web_sample_count_get (web_density ring_count : Z) : Z :=
  ((ring_count * ring_count + ring_count) / 2 * web_density + 1)%Z.

(* ------------------------------------------------------------------ *)
(** ** The sampling state machine *)

Section StateMachine.
Local Open Scope Z_scope.

Variable hdr : Header.

(** Lines 32-53 of [Sampling::init] on a scene: the target sample count
    before it is divided by the motion blur steps. *)
Definition init_target_sample_count (inst : Inst) (scene : Scene) : Z :=
  let render_sample_count :=
    wrap64 (if 0 <? view_layer_samples inst then view_layer_samples inst
            else taa_render_samples scene) in
  let sample_count :=
    if is_viewport inst then wrap64 (taa_samples scene)
    else render_sample_count in
  let sample_count :=
    if is_image_render inst then Z.max 1 sample_count else sample_count in
  let sample_count :=
    if sample_count =? 0 then infinite_sample_count_ hdr else sample_count in
  if is_viewport inst then
    let pixel_size := preview_pixel_size (inst_scene inst) in
    if 1 <? pixel_size
    then wrap64 (max_ii sample_count (square_i pixel_size))
    else sample_count
  else sample_count.

(** Lines 55-57. *)
Definition init_motion_blur_steps (inst : Inst) (scene : Scene) : Z :=
  if negb (is_viewport inst) && mode_mblur scene
  then wrap64 (motion_blur_steps scene)
  else 1.

(** Line 58: the sample count that enters the DoF jitter block. *)
Definition init_pre_jitter_sample_count (inst : Inst) (scene : Scene) : Z :=
  divide_ceil_u (init_target_sample_count inst scene)
                (init_motion_blur_steps inst scene).

(** Lines 60-76: ring count, web sample count and the sample count that leaves
    the DoF jitter block. *)
Definition init_dof (scene : Scene) (sample_count : Z) : Z * Z * Z :=
  if flag_dof_jitter scene then
    let dof_ring_count :=
      if sample_count =? infinite_sample_count_ hdr then 6
      else wrap64 (sampling_web_ring_count_get hdr (dof_web_density_ hdr)
                                               sample_count) in
    let dof_sample_count :=
      wrap64 (sampling_web_sample_count_get (dof_web_density_ hdr)
                                            dof_ring_count) in
    (dof_ring_count, dof_sample_count,
     wrap64 (divide_ceil_u sample_count dof_sample_count * dof_sample_count))
  else (0, 1, sample_count).

(** The sample count after line 71, before the multiplication of line 79. *)
Definition init_jittered_sample_count (inst : Inst) (scene : Scene) : Z :=
  snd (init_dof scene (init_pre_jitter_sample_count inst scene)).

(** The lambda of line 81; its [double] result [1e20] is stored into a
    [float] member. *)
Definition clamp_value_load (value : float) : float :=
  if Fl.gt value Fl.zero then value
  else Fl.narrow (Fin (inject_Z (10 ^ 20))).

(** [Sampling::init] on a scene. *)
Definition init (inst : Inst) (scene : Scene) (s : Sampling) : Sampling :=
  let motion_blur_steps := init_motion_blur_steps inst scene in
  let sample_count := init_pre_jitter_sample_count inst scene in
  let '(dof_ring_count, dof_sample_count, sample_count) :=
    init_dof scene sample_count in
  let sample_count := wrap64 (sample_count * motion_blur_steps) in
  set_clamp_data
    {| sun_threshold := clamp_value_load (world_sun_threshold inst);
       surface_direct := clamp_value_load (clamp_surface_direct scene);
       surface_indirect := clamp_value_load (clamp_surface_indirect scene);
       volume_direct := clamp_value_load (clamp_volume_direct scene);
       volume_indirect := clamp_value_load (clamp_volume_indirect scene) |}
    (set_sample_count sample_count
       (set_dof dof_ring_count dof_sample_count
          (set_motion_blur_steps motion_blur_steps s))).

(** [Sampling::init] on a light probe object; the argument is the
    [grid_bake_samples] of the light probe. *)
Definition init_probe (grid_bake_samples : Z) (s : Sampling) : Sampling :=
  set_sample 0 (set_sample_count (wrap64 (max_ii 1 grid_bake_samples)) s).

(** [Sampling::end_sync].  The local [interactive_sample_count] is an
    [int]; the comparisons and the remainder are taken on the values, which
    is what the mixed [int]/[uint64_t] operations of C++ compute as long as
    the header constants are not negative. *)
Definition end_sync (inst : Inst) (s : Sampling) : Sampling :=
  let s := if reset_ s then set_viewport_sample 0 s else s in
  if is_viewport inst then
    let s :=
      set_interactive_mode
        (viewport_sample_ s <? interactive_mode_threshold hdr) s in
    let interactive_mode_disabled :=
      negb (flag_taa_reprojection (inst_scene inst))
      || is_viewport_image_render inst in
    if interactive_mode_disabled then
      set_sample (viewport_sample_ s) (set_interactive_mode false s)
    else if interactive_mode_ s then
      let interactive_sample_count := to_int (interactive_sample_max_ hdr) in
      if viewport_sample_ s <? interactive_sample_count then
        set_sample (wrap64 (sample_ s mod interactive_sample_count)) s
      else
        set_sample (wrap64 interactive_sample_count) s
    else s
  else s.

(** The viewport-relative counter as [end_sync] reads it at line 107, after
    the pending reset of lines 101-103 has been applied. *)
Definition end_sync_viewport_counter (s : Sampling) : Z :=
  if reset_ s then 0 else viewport_sample_ s.

(** [Sampling::interactive_mode()]. *)
Definition interactive_mode (s : Sampling) : bool := interactive_mode_ s.

(** The dimension vector that [Sampling::step] writes (lines 132-228).  The
    draws [r] are [double]; the slots and the argument of [fractf] are
    [float], and [to_float] is the conversion between the two. *)
Definition step_dimensions_with (to_float : float -> float)
    (inst : Inst) (s : Sampling) : DimensionVector :=
  let dims := data_ s in
  (* filter, time, closure *)
  let sample_filter :=
    sample_ s / wrap64 (square_i (film_scaling_factor inst)) in
  let sample_filter :=
    if interactive_mode s
    then sample_filter mod interactive_sample_aa_ hdr
    else sample_filter in
  let '(r0, r1) :=
    BLI_halton_2d (2, 3) (0, 0)%Q (wrap64 (sample_filter + 1)) in
  let dims := dim_set SAMPLING_FILTER_U (Fl.fractf (to_float (Fl.add r0 (Fin (1 # 2))))) dims in
  let dims := dim_set SAMPLING_FILTER_V (Fl.fractf (to_float (Fl.add r1 (Fin (2 # 3))))) dims in
  let dims := dim_set SAMPLING_TIME (to_float r0) dims in
  let dims := dim_set SAMPLING_CLOSURE (to_float r1) dims in
  let dims := dim_set SAMPLING_RAYTRACE_X (to_float r0) dims in
  (* lens, light probe, transparency, ambient occlusion, curves *)
  let '(r0, r1, r2) :=
    BLI_halton_3d (5, 7, 3) (0, 0, 0)%Q (wrap64 (sample_ s + 1)) in
  let dims := dim_set SAMPLING_LENS_U (to_float r0) dims in
  let dims := dim_set SAMPLING_LENS_V (to_float r1) dims in
  let dims := dim_set SAMPLING_LIGHTPROBE (to_float r0) dims in
  let dims := dim_set SAMPLING_TRANSPARENCY (to_float r1) dims in
  let dims := dim_set SAMPLING_AO_U (to_float r0) dims in
  let dims := dim_set SAMPLING_AO_V (to_float r1) dims in
  let dims := dim_set SAMPLING_AO_W (to_float r2) dims in
  let dims := dim_set SAMPLING_CURVES_U (to_float r0) dims in
  (* shadow, ray tracing: leaped sequence *)
  let sample_raytrace := sample_ s in
  let sample_raytrace :=
    if interactive_mode s
    then sample_raytrace mod interactive_sample_raytrace_ hdr
    else sample_raytrace in
  let leap := 13 in
  let '(r0, r1, r2) :=
    BLI_halton_3d (5, 7, 11) (0, 0, 0)%Q (wrap64 (sample_raytrace * leap + 1)) in
  let dims := dim_set SAMPLING_SHADOW_U (to_float r0) dims in
  let dims := dim_set SAMPLING_SHADOW_V (to_float r1) dims in
  let dims := dim_set SAMPLING_SHADOW_W (to_float r2) dims in
  let dims := dim_set SAMPLING_RAYTRACE_U (to_float r0) dims in
  let dims := dim_set SAMPLING_RAYTRACE_V (to_float r1) dims in
  let dims := dim_set SAMPLING_RAYTRACE_W (to_float r2) dims in
  (* shadow, offset to start at the origin *)
  let '(r0, r1, r2) :=
    BLI_halton_3d (2, 3, 5) (0, 0, 0)%Q (wrap64 (sample_ s + 1)) in
  let dims := dim_set SAMPLING_SHADOW_I (Fl.fractf (to_float (Fl.add r0 (Fin (1 # 2))))) dims in
  let dims := dim_set SAMPLING_SHADOW_J (Fl.fractf (to_float (Fl.add r1 (Fin (2 # 3))))) dims in
  let dims := dim_set SAMPLING_SHADOW_K (Fl.fractf (to_float (Fl.add r2 (Fin (4 # 5))))) dims in
  (* volume *)
  let sample_volume := sample_ s in
  let sample_volume :=
    if interactive_mode s
    then sample_volume mod interactive_sample_volume_ hdr
    else sample_volume in
  let '(r0, r1, r2) :=
    BLI_halton_3d (2, 3, 5) (0, 0, 0)%Q (wrap64 (sample_volume + 1)) in
  let dims := dim_set SAMPLING_VOLUME_U (Fl.fractf (to_float (Fl.add r0 (Fin (1 # 2))))) dims in
  let dims := dim_set SAMPLING_VOLUME_V (Fl.fractf (to_float (Fl.add r1 (Fin (2 # 3))))) dims in
  let dims := dim_set SAMPLING_VOLUME_W (Fl.fractf (to_float (Fl.add r2 (Fin (4 # 5))))) dims in
  (* shadow, subsurface scattering: leaped sequence *)
  let leap := 5 in
  let '(r0, r1) :=
    BLI_halton_2d (2, 3) (0, 0)%Q (wrap64 (sample_ s * leap + 1)) in
  let dims := dim_set SAMPLING_SHADOW_X (to_float r0) dims in
  let dims := dim_set SAMPLING_SHADOW_Y (to_float r1) dims in
  let dims := dim_set SAMPLING_SSS_U (to_float r0) dims in
  let dims := dim_set SAMPLING_SSS_V (to_float r1) dims in
  (* unused slots *)
  let dims := dim_set SAMPLING_UNUSED_0 Fl.zero dims in
  let dims := dim_set SAMPLING_UNUSED_1 Fl.zero dims in
  let dims := dim_set SAMPLING_UNUSED_2 Fl.zero dims in
  dims.

(** The vector as the code computes it. *)
Definition step_dimensions : Inst -> Sampling -> DimensionVector :=
  step_dimensions_with Fl.narrow.

(** The two assertions of the loop at lines 230-235, for one slot. *)
Definition dimension_asserts (v : float) : bool :=
  Fl.ge v Fl.zero && Fl.lt v Fl.one.

(** [Sampling::step]. *)
Definition step (inst : Inst) (s : Sampling) : Sampling :=
  let s := set_data (step_dimensions inst s) s in
  let s := set_viewport_sample (wrap64 (viewport_sample_ s + 1)) s in
  let s := set_sample (wrap64 (sample_ s + 1)) s in
  set_reset false s.

(** [Sampling::reset]. *)
Definition reset (s : Sampling) : Sampling := set_reset true s.

(** [Sampling::is_reset]. *)
Definition is_reset (s : Sampling) : bool := reset_ s.

(** *** Sessions: sequences of calls *)

Inductive call : Type :=
| CallInit (inst : Inst) (scene : Scene)
| CallInitProbe (inst : Inst) (grid_bake_samples : Z)
| CallEndSync (inst : Inst)
| CallStep (inst : Inst)
| CallReset (inst : Inst).

Definition run_call (c : call) (s : Sampling) : Sampling :=
  match c with
  | CallInit inst scene => init inst scene s
  | CallInitProbe _ n => init_probe n s
  | CallEndSync inst => end_sync inst s
  | CallStep inst => step inst s
  | CallReset _ => reset s
  end.

(** The context assertions of the entry points: [init] on a light probe
    asserts a baking context, [reset] a viewport. *)
Definition call_asserts (c : call) : bool :=
  match c with
  | CallInitProbe inst _ => is_baking inst
  | CallReset inst => is_viewport inst
  | _ => true
  end.

Definition run (cs : list call) (s : Sampling) : Sampling :=
  fold_left (fun st c => run_call c st) cs s.

Definition is_reset_call (c : call) : bool :=
  match c with CallReset _ => true | _ => false end.

Definition is_probe_call (c : call) : bool :=
  match c with CallInitProbe _ _ => true | _ => false end.

(** A session without an explicit reset request. *)
Definition no_reset (cs : list call) : bool :=
  forallb (fun c => negb (is_reset_call c)) cs.

(** A session that never initialises from a light probe. *)
Definition no_probe (cs : list call) : bool :=
  forallb (fun c => negb (is_probe_call c)) cs.

End StateMachine.

(* ------------------------------------------------------------------ *)
(** ** Depth of field web sampler *)

Section DofDisk.
Local Open Scope Z_scope.

Variable hdr : Header.

(** The [while] loop of [dof_disk_sample_get] (lines 333-339) on the [int]
    locals; arithmetic that leaves the [int] range wraps.  [None] when the fuel runs out or when the remainder would divide
    by zero. *)
Fixpoint dof_ring_loop (fuel : nat)
    (s ring ring_sample_count ring_sample samples_passed : Z)
  : option (Z * Z * Z) :=
  if s >=? samples_passed then
    match fuel with
    | O => None
    | S fuel' =>
        let ring := to_int (ring + 1) in
        let ring_sample_count :=
          to_int (wrap64 (wrap64 ring * dof_web_density_ hdr)) in
        let ring_sample := to_int (s - samples_passed) in
        if ring_sample_count =? 0 then None
        else
          let ring_sample :=
            Z.rem (to_int (ring_sample + 1)) ring_sample_count in
          let samples_passed := to_int (samples_passed + ring_sample_count) in
          dof_ring_loop fuel' s ring ring_sample_count ring_sample
                        samples_passed
    end
  else Some (ring, ring_sample_count, ring_sample).

(** Lines 317-339: the ring, the number of samples on it and the position of
    the sample on the ring, for the current sample.  The loop adds at least
    one to [samples_passed] per turn, so [s] turns of fuel are enough. *)
Definition dof_web_sample (s : Sampling) : option (Z * Z * Z) :=
  if dof_sample_count_ s =? 0 then None
  else
    let s0 := to_int (wrap64 (sample_ s - 1)) in
    let s1 := to_int (wrap64 (wrap64 s0 * wrap64 (dof_web_density_ hdr - 1))) in
    let s2 := to_int (wrap64 s1 mod dof_sample_count_ s) in
    dof_ring_loop (Z.to_nat s2) s2 0 1 1 1.

(** [Sampling::dof_disk_sample_get]: the pair [(r_radius, r_theta)], as the
    real values of the two float expressions of lines 341-342. *)
Definition dof_disk_sample_get (s : Sampling) : option (R * R) :=
  if dof_ring_count_ s =? 0 then Some (0%R, 0%R)
  else
    match dof_web_sample s with
    | None => None
    | Some (ring, ring_sample_count, ring_sample) =>
        Some ((IZR ring / IZR (dof_ring_count_ s))%R,
              (2 * PI * IZR ring_sample / IZR ring_sample_count)%R)
    end.

End DofDisk.

(* ------------------------------------------------------------------ *)
(** ** Cumulative distribution function *)

Section Vector.
Variable A : Type.

(** [v[i] = x] on a [Vector]; the index is in range at every use. *)
Fixpoint vset (i : nat) (x : A) (v : list A) : list A :=
  match v, i with
  | [], _ => []
  | _ :: t, O => x :: t
  | h :: t, S i' => h :: vset i' x t
  end.

(** A loop over [0 .. k-1] whose turn [u] writes at most the entry [u]. *)
Definition sweep (h : nat -> option nat) (w : nat -> nat -> A) (k : nat)
    (v : list A) : list A :=
  fold_left
    (fun acc u => match h u with
                  | Some i => vset u (w u i) acc
                  | None => acc
                  end)
    (seq 0 k) v.

End Vector.

Section CDF.

(** [cdf[i]]. *)
Definition at_ (v : list float) (i : nat) : float := nth i v NaN.

(** [cdf.last()]. *)
Definition vlast (v : list float) : float := at_ v (length v - 1).

(** The evaluator [BKE_curvemapping_evaluateF(&curve, 0, x)] as a function
    of [x]. *)
Variable curve : float -> float.

(** The first loop of [cdf_from_curvemapping] (lines 356-359). *)
Definition cdf_accumulate (cdf : list float) : list float :=
  fold_left
    (fun cdf u =>
       let x := Fl.div (Fl.of_Z (Z.of_nat u + 1))
                       (Fl.of_Z (Z.of_nat (length cdf) - 1)) in
       vset (u + 1) (Fl.add (at_ cdf u) (curve x)) cdf)
    (seq 0 (length cdf - 1)) cdf.

(** The second loop (lines 361-363); [cdf.last()] is read again at every
    turn. *)
Definition cdf_normalize (cdf : list float) : list float :=
  fold_left
    (fun cdf u => vset u (Fl.div (at_ cdf u) (vlast cdf)) cdf)
    (seq 0 (length cdf)) cdf.

(** [Sampling::cdf_from_curvemapping]; the argument is the vector that the
    caller has sized. *)
Definition cdf_from_curvemapping (cdf : list float) : list float :=
  let cdf := vset 0 Fl.zero cdf in
  let cdf := cdf_accumulate cdf in
  let cdf := cdf_normalize cdf in
  vset (length cdf - 1) Fl.one cdf.

(** The entries never decrease from one index to the next. *)
Fixpoint nondecreasing (v : list float) : bool :=
  match v with
  | a :: (b :: _) as t => Fl.le a b && nondecreasing t
  | _ => true
  end.

(** The assertion of [cdf_invert] (line 370). *)
Definition cdf_invert_assert (cdf : list float) : bool :=
  Fl.eqb (at_ cdf 0) Fl.zero && Fl.eqb (vlast cdf) Fl.one.

(** The query point of [cdf_invert] for the entry [u] of a table of [m]
    entries (line 372). *)
Definition cdf_invert_query (m u : nat) : float :=
  Fl.clamp_f (Fl.div (Fl.of_Z (Z.of_nat u)) (Fl.of_Z (Z.of_nat m - 1)))
             (Fin (1 # 100000))
             (Fl.sub Fl.one (Fin (1 # 100000))).

(** The inner search (lines 373-374): the first index, from 1 on, whose
    entry is at least [x]. *)
Definition cdf_invert_search (cdf : list float) (x : float) : option nat :=
  find (fun i => Fl.ge (at_ cdf i) x) (seq 1 (length cdf - 1)).

(** The divisor of line 375 for the bracket that ends at [i]. *)
Definition cdf_invert_divisor (cdf : list float) (i : nat) : float :=
  Fl.sub (at_ cdf i) (at_ cdf (i - 1)).

(** Lines 375-376. *)
Definition cdf_invert_value (cdf : list float) (x : float) (i : nat) : float :=
  let t := Fl.div (Fl.sub x (at_ cdf i)) (cdf_invert_divisor cdf i) in
  Fl.div (Fl.add (Fl.of_Z (Z.of_nat i)) t)
         (Fl.of_Z (Z.of_nat (length cdf) - 1)).

(** [Sampling::cdf_invert]: an entry whose search finds no bracket keeps the
    value it had. *)
Definition cdf_invert (cdf inverted_cdf : list float) : list float :=
  fold_left
    (fun inv u =>
       let x := cdf_invert_query (length inverted_cdf) u in
       match cdf_invert_search cdf x with
       | Some i => vset u (cdf_invert_value cdf x i) inv
       | None => inv
       end)
    (seq 0 (length inverted_cdf)) inverted_cdf.

(** *** Notions used to state the properties of the two functions *)

(** The domain point of turn [u] of the first loop, for a vector of [n]
    entries. *)
Definition cdf_sample_point (n u : nat) : float :=
  Fl.div (Fl.of_Z (Z.of_nat u + 1)) (Fl.of_Z (Z.of_nat n - 1)).

(** The running sum after [k] turns of the first loop. *)
Fixpoint cdf_running_sum (n k : nat) : float :=
  match k with
  | O => Fl.zero
  | S k' => Fl.add (cdf_running_sum n k') (curve (cdf_sample_point n k'))
  end.


End CDF.

(* ------------------------------------------------------------------ *)
(** ** Invariants *)

Section Invariants.
Local Open Scope Z_scope.

(** While a reset is pending the viewport counter is already zero. *)
Definition reset_applied (s : Sampling) : Prop :=
  reset_ s = true -> viewport_sample_ s = 0.

(** Without reset and probe initialisation the two counters move together;
    [n] bounds the number of steps taken so far. *)
Definition in_step (n : Z) (s : Sampling) : Prop :=
  sample_ s = viewport_sample_ s /\ reset_ s = false /\ 0 <= sample_ s <= n.


End Invariants.

(* ------------------------------------------------------------------ *)
(** ** Concrete configurations

    Example values on which the model is run.  The numbers chosen for the
    header are examples only: every general statement below is over an
    arbitrary [Header]. *)

Module Examples.
Local Open Scope Z_scope.

(** A ring count function for the examples: the least number of rings whose
    web pattern holds [sample_count] samples. *)
Fixpoint ring_search (fuel : nat) (web_density sample_count ring : Z) : Z :=
  match fuel with
  | O => ring
  | S fuel' =>
      if sample_count <=? sampling_web_sample_count_get web_density ring
      then ring
      else ring_search fuel' web_density sample_count (ring + 1)
  end.

Definition ring_count_example (web_density sample_count : Z) : Z :=
  ring_search (Z.to_nat sample_count) web_density sample_count 0.

Definition hdr_example : Header :=
  {| infinite_sample_count_ := 16777215;
     interactive_sample_aa_ := 8;
     interactive_sample_raytrace_ := 32;
     interactive_sample_volume_ := 32;
     interactive_sample_max_ := 32;
     interactive_mode_threshold := 3;
     dof_web_density_ := 6;
     sampling_web_ring_count_get := ring_count_example |}.

(** A header whose interactive cap lies below the interactive threshold, so
    that the latching branch of [end_sync] can be reached. *)
Definition hdr_small_cap : Header :=
  {| infinite_sample_count_ := 16777215;
     interactive_sample_aa_ := 8;
     interactive_sample_raytrace_ := 32;
     interactive_sample_volume_ := 32;
     interactive_sample_max_ := 2;
     interactive_mode_threshold := 3;
     dof_web_density_ := 6;
     sampling_web_ring_count_get := ring_count_example |}.

(** A scene with depth of field jitter, temporal reprojection and ten render
    samples. *)
Definition scene_example : Scene :=
  {| taa_render_samples := 10;
     taa_samples := 16;
     motion_blur_steps := 1;
     flag_dof_jitter := true;
     flag_taa_reprojection := true;
     mode_mblur := false;
     preview_pixel_size := 1;
     clamp_surface_direct := Fl.zero;
     clamp_surface_indirect := Fl.zero;
     clamp_volume_direct := Fl.zero;
     clamp_volume_indirect := Fl.zero |}.

Definition inst_viewport : Inst :=
  {| is_viewport := true;
     is_image_render := false;
     is_viewport_image_render := false;
     is_baking := false;
     view_layer_samples := 0;
     inst_scene := scene_example;
     film_scaling_factor := 1;
     world_sun_threshold := Fl.zero |}.

Definition inst_render : Inst :=
  {| is_viewport := false;
     is_image_render := true;
     is_viewport_image_render := false;
     is_baking := false;
     view_layer_samples := 0;
     inst_scene := scene_example;
     film_scaling_factor := 1;
     world_sun_threshold := Fl.zero |}.

(** A light probe baking context. *)
Definition inst_baking : Inst :=
  {| is_viewport := false;
     is_image_render := false;
     is_viewport_image_render := false;
     is_baking := true;
     view_layer_samples := 0;
     inst_scene := scene_example;
     film_scaling_factor := 1;
     world_sun_threshold := Fl.zero |}.

(** The identity CDF of [n] entries: [cdf[i] = i / (n - 1)]. *)
Definition identity_cdf (n : nat) : list float :=
  map (fun i => Fl.div (Fl.of_Z (Z.of_nat i)) (Fl.of_Z (Z.of_nat n - 1)))
      (seq 0 n).

End Examples.
Import Examples.

(* ------------------------------------------------------------------ *)
(** ** Normal form of a state *)

(** Unfolds the setters and the projections of [Sampling]. *)
Ltac sampling_norm :=
  cbv beta iota zeta
      delta [set_sample set_viewport_sample set_interactive_mode set_reset
             set_data set_sample_count set_dof set_motion_blur_steps
             set_clamp_data
             reset_ viewport_sample_ sample_ interactive_mode_
             sample_count_ dof_ring_count_ dof_sample_count_
             motion_blur_steps_ data_ clamp_data_].

(** ** Sessions: further notions *)

Section SessionNotions.
Local Open Scope Z_scope.



(** The number of [step] calls of a session. *)
Fixpoint step_count (cs : list call) : Z :=
  match cs with
  | [] => 0
  | CallStep _ :: cs' => 1 + step_count cs'
  | _ :: cs' => step_count cs'
  end.


(** The divisions of [Sampling::step] are defined: the squared film scaling
    factor is not zero and, in interactive mode, neither are the three
    interactive sample counts of the header ([/] and [%] by zero are undefined
    in the source). *)
Definition step_divisions_defined (hdr : Header) (inst : Inst) (s : Sampling)
  : Prop :=
  wrap64 (square_i (film_scaling_factor inst)) <> 0
  /\ (interactive_mode s = true ->
      interactive_sample_aa_ hdr <> 0
      /\ interactive_sample_raytrace_ hdr <> 0
      /\ interactive_sample_volume_ hdr <> 0).

End SessionNotions.

(** ** The web pattern: further notions *)

Section WebNotions.
Local Open Scope Z_scope.

(** The index inside the web pattern that [dof_disk_sample_get] derives from
    the sample index (lines 317-323), when no [int] overflows. *)
Definition dof_web_index (hdr : Header) (s : Sampling) : Z :=
  ((sample_ s - 1) * (dof_web_density_ hdr - 1)) mod dof_sample_count_ s.

(** The place of the pattern index [idx] on the web: index 0 is the centre;
    ring [ring >= 1] holds the indices from the size of the pattern of
    [ring - 1] rings up to the size of the pattern of [ring] rings, and the
    position on the ring is the offset inside that range, plus one, modulo
    the number of samples of the ring. *)
Definition web_position (density idx ring ring_sample_count ring_sample : Z)
  : Prop :=
  (idx = 0 /\ ring = 0 /\ ring_sample_count = 1 /\ ring_sample = 1)
  \/ (1 <= ring
      /\ sampling_web_sample_count_get density (ring - 1) <= idx
         < sampling_web_sample_count_get density ring
      /\ ring_sample_count = ring * density
      /\ ring_sample
         = (idx - sampling_web_sample_count_get density (ring - 1) + 1)
           mod ring_sample_count).

End WebNotions.


(* ------------------------------------------------------------------ *)
(** ** Sampling patterns *)

Section Mappers.
Local Open Scope R_scope.

(** [float2] and [float3] are pairs and triples of numbers.  As for
    [dof_disk_sample_get], a result is the real value of its float
    expression: [sqrtf], [cosf], [sinf] and [fmaxf] are the real functions
    ([sqrt] is [sqrtf] on the arguments that are not negative, the only ones
    the properties below use), [M_PI] is [PI], and rounding is left out. *)
Definition float2 : Type := R * R.
Definition float3 : Type := R * R * R.

(** [square_f] and [safe_sqrtf] of BLI_math_base are not in the translated
    file: they are parameters, and a property that depends on what they
    compute says so in a hypothesis. *)
Variable square_f : R -> R.
Variable safe_sqrtf : R -> R.

(** [Sampling::sample_ball]. *)
Definition sample_ball (rand : float3) : float3 :=
  let '(rand_x, rand_y, rand_z) := rand in
  let z := rand_x * 2 - 1 in
  let r := sqrt (Rmax 0 (1 - square_f z)) in
  let omega := rand_y * 2 * PI in
  let x := r * cos omega in
  let y := r * sin omega in
  let scale := sqrt (sqrt rand_z) in
  (x * scale, y * scale, z * scale).

(** [Sampling::sample_disk]. *)
Definition sample_disk (rand : float2) : float2 :=
  let '(rand_x, rand_y) := rand in
  let omega := rand_y * 2 * PI in
  (sqrt rand_x * cos omega, sqrt rand_x * sin omega).


(** [Sampling::sample_sphere]. *)
Definition sample_sphere (rand : float2) : float3 :=
  let '(rand_x, rand_y) := rand in
  let omega := rand_y * 2 * PI in
  let cos_theta := rand_x * 2 - 1 in
  let sin_theta := safe_sqrtf (1 - square_f cos_theta) in
  (sin_theta * cos omega, sin_theta * sin omega, cos_theta).

(** [Sampling::sample_spiral]. *)
Definition sample_spiral (rand : float2) : float2 :=
  let '(rand_x, rand_y) := rand in
  let omega := 4 * PI * (1 + sqrt 5) * rand_x in
  let r := sqrt rand_x in
  let omega := omega + rand_y * 2 * PI in
  (r * cos omega, r * sin omega).

(** The squared distance to the origin. *)
Definition norm2_sq (p : float2) : R :=
  let '(x, y) := p in x * x + y * y.

Definition norm3_sq (p : float3) : R :=
  let '(x, y, z) := p in x * x + y * y + z * z.

End Mappers.

(* ================================================================== *)
(** * Properties *)

Local Open Scope Z_scope.

(* ------------------------------------------------------------------ *)
(** ** Machine integers *)

Section IntFacts.
Local Open Scope Z_scope.

Lemma wrap64_range z : 0 <= wrap64 z < 2 ^ 64.
Proof. unfold wrap64. apply Z.mod_pos_bound. lia. Qed.

Lemma wrap64_small z : 0 <= z < 2 ^ 64 -> wrap64 z = z.
Proof. intros Hz. unfold wrap64. apply Z.mod_small. exact Hz. Qed.

Lemma to_int_small z : - 2 ^ 31 <= z < 2 ^ 31 -> to_int z = z.
Proof. intros Hz. unfold to_int. rewrite Z.mod_small; lia. Qed.

End IntFacts.

(* ------------------------------------------------------------------ *)
(** ** The counters *)

Section CounterFacts.
Local Open Scope Z_scope.

Variable hdr : Header.

Lemma init_counters inst scene s :
  sample_ (init hdr inst scene s) = sample_ s
  /\ viewport_sample_ (init hdr inst scene s) = viewport_sample_ s
  /\ reset_ (init hdr inst scene s) = reset_ s.
Proof.
  unfold init. destruct (init_dof hdr scene _) as [[ring dsc] sc].
  simpl. auto.
Qed.

Lemma init_probe_counters n s :
  viewport_sample_ (init_probe n s) = viewport_sample_ s
  /\ reset_ (init_probe n s) = reset_ s.
Proof. unfold init_probe. simpl. auto. Qed.

(** [end_sync] only ever writes 0 into the viewport counter, and only when a
    reset is pending; it never touches the reset flag. *)
Lemma end_sync_viewport_sample inst s :
  viewport_sample_ (end_sync hdr inst s)
  = (if reset_ s then 0 else viewport_sample_ s)
  /\ reset_ (end_sync hdr inst s) = reset_ s.
Proof.
  unfold end_sync.
  destruct (reset_ s) eqn:Hr; destruct (is_viewport inst); simpl;
    repeat match goal with
           | |- context [if ?b then _ else _] => destruct b; simpl
           end; auto.
Qed.

End CounterFacts.

(* ------------------------------------------------------------------ *)
(** ** Interactive mode in [end_sync] *)

Section Interactive.
Local Open Scope Z_scope.

Variable hdr : Header.

(** C5.  In a viewport, with temporal reprojection enabled and no image
    render in the viewport, an [end_sync] that reads a viewport-relative
    counter below the interactive threshold sets the interactive flag; if
    that counter has moreover reached the interactive sample cap, the
    absolute counter becomes the cap itself, whatever it was before (it is
    not reduced modulo the cap). *)
Theorem end_sync_interactive_latch (inst : Inst) (s : Sampling) :
  is_viewport inst = true ->
  flag_taa_reprojection (inst_scene inst) = true ->
  is_viewport_image_render inst = false ->
  0 <= interactive_sample_max_ hdr < 2 ^ 31 ->
  end_sync_viewport_counter s < interactive_mode_threshold hdr ->
  interactive_mode_ (end_sync hdr inst s) = true
  /\ (interactive_sample_max_ hdr <= end_sync_viewport_counter s ->
      sample_ (end_sync hdr inst s) = interactive_sample_max_ hdr).
Proof.
  intros Hview Hrepr Himg Hcap Hlow.
  assert (Hint : to_int (interactive_sample_max_ hdr)
                 = interactive_sample_max_ hdr)
    by (apply to_int_small; lia).
  unfold end_sync, end_sync_viewport_counter in *.
  rewrite Hview, Hrepr, Himg. simpl negb. simpl orb. cbv iota.
  destruct (reset_ s); simpl in *;
    (apply Z.ltb_lt in Hlow as Hlow'; rewrite Hlow'; simpl);
    rewrite Hint;
    (split; [|intros Hreach]);
    try match goal with
        | |- context [?a <? ?b] => destruct (Z.ltb_spec a b); simpl
        end; auto; try lia;
    apply wrap64_small; lia.
Qed.

End Interactive.

Lemma end_sync_interactive_latch_witness :
  interactive_mode_
    (end_sync hdr_small_cap inst_viewport (set_viewport_sample 2 (set_sample 7 fresh)))
  = true
  /\ sample_
       (end_sync hdr_small_cap inst_viewport (set_viewport_sample 2 (set_sample 7 fresh)))
     = 2.
Proof.
  assert (Hcount : end_sync_viewport_counter
                     (set_viewport_sample 2 (set_sample 7 fresh)) = 2)
    by reflexivity.
  destruct (@end_sync_interactive_latch hdr_small_cap inst_viewport
              (set_viewport_sample 2 (set_sample 7 fresh)))
    as [Hflag Hlatch].
  - reflexivity.
  - reflexivity.
  - reflexivity.
  - simpl. lia.
  - rewrite Hcount. simpl. lia.
  - split; [exact Hflag|]. apply Hlatch. rewrite Hcount. simpl. lia.
Defined.

(* ------------------------------------------------------------------ *)
(** ** Reset *)

Section Reset.

Variable hdr : Header.

Lemma reset_applied_run_call c s :
  is_reset_call c = false -> reset_applied s ->
  reset_applied (run_call hdr c s).
Proof.
  unfold reset_applied. intros Hc Hs.
  destruct c as [inst scene|inst n|inst|inst|inst];
    cbn [run_call is_reset_call] in *;
    try discriminate.
  - destruct (init_counters hdr inst scene s) as (_ & Hv & Hr).
    rewrite Hv, Hr. exact Hs.
  - destruct (init_probe_counters n s) as (Hv & Hr).
    rewrite Hv, Hr. exact Hs.
  - destruct (end_sync_viewport_sample hdr inst s) as (Hv & Hr).
    rewrite Hv, Hr. intros Hreset. rewrite Hreset. reflexivity.
Qed.

Lemma reset_applied_run cs : forall s,
  no_reset cs = true -> reset_applied s -> reset_applied (run hdr cs s).
Proof.
  induction cs as [|c cs IH]; intros s Hcs Hs; simpl in *.
  - exact Hs.
  - apply andb_true_iff in Hcs as [Hc Hcs].
    apply IH; [exact Hcs|].
    apply reset_applied_run_call; [|exact Hs].
    now apply negb_true_iff.
Qed.

(** C6.  [reset] followed by [end_sync] leaves the viewport-relative counter
    at zero; after any further calls that are not [reset], one more
    [end_sync] leaves the viewport-relative counter as it finds it. *)
Theorem reset_end_sync_zeroes_once
    (inst inst' : Inst) (s : Sampling) (cs : list call) :
  no_reset cs = true ->
  viewport_sample_ (end_sync hdr inst (reset s)) = 0
  /\ viewport_sample_
       (end_sync hdr inst' (run hdr cs (end_sync hdr inst (reset s))))
     = viewport_sample_ (run hdr cs (end_sync hdr inst (reset s))).
Proof.
  intros Hcs.
  assert (Hzero : viewport_sample_ (end_sync hdr inst (reset s)) = 0).
  { destruct (end_sync_viewport_sample hdr inst (reset s)) as (Hv & _).
    rewrite Hv. reflexivity. }
  split; [exact Hzero|].
  assert (Hinv : reset_applied (run hdr cs (end_sync hdr inst (reset s)))).
  { apply reset_applied_run; [exact Hcs|]. intros _. exact Hzero. }
  destruct (end_sync_viewport_sample hdr inst'
              (run hdr cs (end_sync hdr inst (reset s)))) as (Hv & _).
  rewrite Hv.
  destruct (reset_ (run hdr cs (end_sync hdr inst (reset s)))) eqn:Hr.
  - symmetry. apply Hinv. exact Hr.
  - reflexivity.
Qed.

End Reset.

Lemma reset_end_sync_zeroes_once_witness :
  viewport_sample_
    (end_sync hdr_example inst_viewport
       (reset (set_viewport_sample 5 fresh))) = 0
  /\ viewport_sample_
       (end_sync hdr_example inst_viewport
          (run hdr_example
             [CallStep inst_viewport; CallInit inst_viewport scene_example]
             (end_sync hdr_example inst_viewport
                (reset (set_viewport_sample 5 fresh)))))
     = viewport_sample_
         (run hdr_example
            [CallStep inst_viewport; CallInit inst_viewport scene_example]
            (end_sync hdr_example inst_viewport
               (reset (set_viewport_sample 5 fresh)))).
Proof.
  apply (@reset_end_sync_zeroes_once hdr_example inst_viewport inst_viewport
           (set_viewport_sample 5 fresh)
           [CallStep inst_viewport; CallInit inst_viewport scene_example]).
  reflexivity.
Defined.

(* ------------------------------------------------------------------ *)
(** ** Monotonicity of the absolute sample index *)

Section Monotone.

Variable hdr : Header.

Hypothesis cap_fits_int : 0 < interactive_sample_max_ hdr < 2 ^ 31.
Hypothesis threshold_below_cap :
  interactive_mode_threshold hdr <= interactive_sample_max_ hdr.

Lemma end_sync_in_step inst n s :
  in_step n s -> sample_ (end_sync hdr inst s) = sample_ s.
Proof.
  intros (Heq & Hr & Hrange).
  assert (Hint : to_int (interactive_sample_max_ hdr)
                 = interactive_sample_max_ hdr)
    by (apply to_int_small; lia).
  unfold end_sync. rewrite Hr, Hint.
  destruct (is_viewport inst); [|reflexivity].
  destruct (negb (flag_taa_reprojection (inst_scene inst))
            || is_viewport_image_render inst); simpl.
  - symmetry. exact Heq.
  - destruct (Z.ltb_spec (viewport_sample_ s) (interactive_mode_threshold hdr));
      simpl; [|reflexivity].
    destruct (Z.ltb_spec (viewport_sample_ s) (interactive_sample_max_ hdr));
      simpl; [|lia].
    rewrite Z.mod_small by lia. apply wrap64_small. lia.
Qed.

Lemma run_call_in_step c n s :
  is_reset_call c = false -> is_probe_call c = false ->
  n + 1 < 2 ^ 64 ->
  in_step n s ->
  in_step (n + 1) (run_call hdr c s)
  /\ sample_ s <= sample_ (run_call hdr c s).
Proof.
  intros Hreset Hprobe Hn Hs.
  pose proof Hs as (Heq & Hr & Hrange).
  destruct c as [inst scene|inst k|inst|inst|inst];
    cbn [run_call is_reset_call is_probe_call] in *; try discriminate.
  - destruct (init_counters hdr inst scene s) as (Hsa & Hv & Hre).
    unfold in_step. rewrite Hsa, Hv, Hre. repeat split; auto; lia.
  - pose proof (end_sync_in_step inst Hs) as Hsa.
    destruct (end_sync_viewport_sample hdr inst s) as (Hv & Hre).
    rewrite Hr in Hv.
    unfold in_step. rewrite Hsa, Hv, Hre. repeat split; auto; lia.
  - unfold in_step, step. simpl.
    rewrite <- Heq. rewrite wrap64_small by lia.
    repeat split; auto; lia.
Qed.

Lemma run_in_step cs : forall n s,
  no_reset cs = true -> no_probe cs = true ->
  n + Z.of_nat (length cs) < 2 ^ 64 ->
  in_step n s ->
  in_step (n + Z.of_nat (length cs)) (run hdr cs s).
Proof.
  induction cs as [|c cs IH]; intros n s Hreset Hprobe Hn Hs.
  - simpl. replace (n + 0) with n by lia. exact Hs.
  - simpl in Hreset, Hprobe.
    apply andb_true_iff in Hreset as [Hc1 Hreset].
    apply andb_true_iff in Hprobe as [Hc2 Hprobe].
    apply negb_true_iff in Hc1. apply negb_true_iff in Hc2.
    change (length (c :: cs)) with (S (length cs)) in *.
    rewrite Nat2Z.inj_succ in *.
    replace (n + Z.succ (Z.of_nat (length cs)))
      with ((n + 1) + Z.of_nat (length cs)) in * by lia.
    simpl. apply IH; auto.
    apply run_call_in_step; auto. lia.
Qed.

(** C4, as amended.  In a session that starts from a freshly constructed
    sampler, makes fewer than [2^64] calls and contains neither a reset
    request nor an initialisation from a light probe, no call decreases the
    absolute sample index. *)
Theorem sample_index_monotone (pre post : list call) (c : call) :
  no_reset (pre ++ c :: post) = true ->
  no_probe (pre ++ c :: post) = true ->
  Z.of_nat (length (pre ++ c :: post)) < 2 ^ 64 ->
  sample_ (run hdr pre fresh) <= sample_ (run_call hdr c (run hdr pre fresh)).
Proof.
  intros Hreset Hprobe Hlen.
  unfold no_reset, no_probe in *.
  rewrite forallb_app in Hreset, Hprobe.
  apply andb_true_iff in Hreset as [Hpre1 Hrest1].
  apply andb_true_iff in Hprobe as [Hpre2 Hrest2].
  simpl in Hrest1, Hrest2.
  apply andb_true_iff in Hrest1 as [Hc1 _].
  apply andb_true_iff in Hrest2 as [Hc2 _].
  apply negb_true_iff in Hc1. apply negb_true_iff in Hc2.
  rewrite length_app in Hlen. simpl length in Hlen.
  rewrite Nat2Z.inj_add, Nat2Z.inj_succ in Hlen.
  assert (Hfresh : in_step 0 fresh) by (unfold in_step; simpl; lia).
  pose proof (@run_in_step pre 0 fresh Hpre1 Hpre2 ltac:(lia) Hfresh) as Hpre.
  eapply run_call_in_step; eauto. lia.
Qed.

End Monotone.

Lemma sample_index_monotone_witness :
  sample_ (run hdr_example [CallInit inst_viewport scene_example;
                            CallEndSync inst_viewport;
                            CallStep inst_viewport] fresh)
  <= sample_ (run_call hdr_example (CallEndSync inst_viewport)
                (run hdr_example [CallInit inst_viewport scene_example;
                                  CallEndSync inst_viewport;
                                  CallStep inst_viewport] fresh)).
Proof.
  apply (@sample_index_monotone hdr_example ltac:(simpl; lia) ltac:(simpl; lia)
           [CallInit inst_viewport scene_example; CallEndSync inst_viewport;
            CallStep inst_viewport]
           [CallStep inst_viewport] (CallEndSync inst_viewport)).
  - reflexivity.
  - reflexivity.
  - simpl. lia.
Defined.

(** C4, as stated, fails: in a baking session, the initialisation for the
    next light probe is not a reset request and sets the absolute sample
    index back to zero. *)
Lemma sample_index_decreases_on_probe_init :
  no_reset [CallInitProbe inst_baking 1; CallStep inst_baking;
            CallInitProbe inst_baking 1] = true
  /\ forallb call_asserts [CallInitProbe inst_baking 1; CallStep inst_baking;
                           CallInitProbe inst_baking 1] = true
  /\ sample_ (run_call hdr_example (CallInitProbe inst_baking 1)
                (run hdr_example [CallInitProbe inst_baking 1;
                                  CallStep inst_baking] fresh))
     < sample_ (run hdr_example [CallInitProbe inst_baking 1;
                                 CallStep inst_baking] fresh).
Proof.
  split; [reflexivity|]. split; [reflexivity|]. vm_compute. reflexivity.
Qed.

(* ------------------------------------------------------------------ *)
(** ** Conversion to binary32 *)

Section NarrowFacts.

Lemma Qlt_bool_iff (x y : Q) : Fl.Qlt_bool x y = true <-> (x < y)%Q.
Proof.
  unfold Fl.Qlt_bool. rewrite negb_true_iff. split; intros Hxy.
  - apply Qnot_le_lt. intros Hle. apply Qle_bool_iff in Hle. congruence.
  - destruct (Qle_bool y x) eqn:E; [|reflexivity].
    apply Qle_bool_iff in E. exfalso. eapply Qlt_not_le; eauto.
Qed.

Lemma Qlt_bool_false_iff (x y : Q) : Fl.Qlt_bool x y = false <-> (y <= x)%Q.
Proof.
  unfold Fl.Qlt_bool. rewrite negb_false_iff. apply Qle_bool_iff.
Qed.

(** The rounded integer is the floor or the next integer, and it is the
    next integer only from the half on. *)
Lemma round_half_even_cases (z : Q) :
  Fl.round_half_even z = Qfloor z
  \/ (Fl.round_half_even z = Qfloor z + 1
      /\ (inject_Z (Qfloor z) + (1 # 2) <= z)%Q).
Proof.
  unfold Fl.round_half_even.
  destruct (Fl.Qlt_bool (z - inject_Z (Qfloor z)) (1 # 2)) eqn:Hlow;
    [left; reflexivity|].
  apply Qlt_bool_false_iff in Hlow.
  destruct (Fl.Qlt_bool (1 # 2) (z - inject_Z (Qfloor z)));
    [right; split; [reflexivity | lra]|].
  destruct (Z.even (Qfloor z)); [left; reflexivity|].
  right. split; [reflexivity | lra].
Qed.

Lemma round_half_even_nonneg (z : Q) :
  (0 <= z)%Q -> 0 <= Fl.round_half_even z.
Proof.
  intros Hz. pose proof (Qfloor_resp_le 0 z Hz) as Hfloor.
  change (Qfloor 0) with 0 in Hfloor.
  destruct (round_half_even_cases z) as [->|[-> _]]; lia.
Qed.

Lemma round_half_even_upper (z : Q) :
  (inject_Z (Fl.round_half_even z) <= z + 1)%Q.
Proof.
  pose proof (Qfloor_le z) as Hfloor.
  destruct (round_half_even_cases z) as [->|[-> _]].
  - lra.
  - rewrite inject_Z_plus. change (inject_Z 1) with 1%Q. lra.
Qed.

(** Below [n - 1/2] the rounded integer is below [n]. *)
Lemma round_half_even_below (z : Q) (n : Z) :
  (z < inject_Z n - (1 # 2))%Q -> Fl.round_half_even z <= n - 1.
Proof.
  intros Hz. pose proof (Qfloor_le z) as Hfloor.
  destruct (round_half_even_cases z) as [->|[-> Hhalf]].
  - assert (Hlt : (inject_Z (Qfloor z) < inject_Z n)%Q) by lra.
    rewrite <- Zlt_Qlt in Hlt. lia.
  - assert (Hlt : (inject_Z (Qfloor z) < inject_Z (n - 1))%Q).
    { unfold Z.sub. rewrite inject_Z_plus, inject_Z_opp.
      change (inject_Z 1) with 1%Q. lra. }
    rewrite <- Zlt_Qlt in Hlt. lia.
Qed.

(** A positive number below [2^k] has a binary exponent below [k]. *)
Lemma binary_exponent_upper (x : Q) (k : Z) :
  0 <= k -> (0 < x)%Q -> (x < inject_Z (2 ^ k))%Q ->
  Fl.binary_exponent x <= k - 1.
Proof.
  intros Hk Hpos Hlt. unfold Fl.binary_exponent.
  set (e0 := Z.log2 (Qnum x) - Z.log2 (Z.pos (Qden x))).
  assert (He0 : e0 <= k).
  { unfold Qlt in Hpos, Hlt. simpl in Hpos, Hlt.
    assert (Hnum : Qnum x <= Z.pos (Qden x) * 2 ^ k) by lia.
    apply Z.log2_le_mono in Hnum.
    rewrite Z.log2_mul_pow2 in Hnum by lia.
    unfold e0. lia. }
  destruct (Fl.Qlt_bool x (Fl.scale2 1 e0)) eqn:Hcmp; [lia|].
  destruct (Z.eq_dec e0 k) as [Heq|Hne]; [|lia].
  exfalso. apply Qlt_bool_false_iff in Hcmp.
  unfold Fl.scale2 in Hcmp. rewrite Heq in Hcmp.
  destruct (Z.leb_spec 0 k); [|lia]. lra.
Qed.

(** Rounding at a negative exponent [t]: the value is a multiple of
    [1 / 2^(-t)]. *)
Lemma round_to_negative (t : Z) (x : Q) :
  t < 0 ->
  Fl.round_to t x
  = (inject_Z (Fl.round_half_even (x * inject_Z (2 ^ (- t))))
     / inject_Z (2 ^ (- t)))%Q.
Proof.
  intros Ht. unfold Fl.round_to, Fl.scale2.
  destruct (Z.leb_spec 0 (- t)); [|lia].
  destruct (Z.leb_spec 0 t); [lia|]. reflexivity.
Qed.

Lemma Qabs_nonneg_eq (x : Q) : (0 <= x)%Q -> Qabs x = x.
Proof.
  destruct x as [p q]. unfold Qle. simpl. intros Hp.
  unfold Qabs. rewrite Z.abs_eq by lia. reflexivity.
Qed.

(** Narrowing a number of [[0, 2^k)], for [k <= 1]: the result is finite, not
    negative, and a multiple of [1 / n] for a power of two [n >= 2^(24-k)]
    obtained by rounding [x * n]. *)
Lemma to_binary32_small (x : Q) (k : Z) :
  0 <= k <= 1 -> (0 < x)%Q -> (x < inject_Z (2 ^ k))%Q ->
  exists n : Z,
    2 ^ (24 - k) <= n
    /\ Fl.to_binary32 x
       = Fin (inject_Z (Fl.round_half_even (x * inject_Z n)) / inject_Z n).
Proof.
  intros Hk Hpos Hlt. unfold Fl.to_binary32.
  destruct (Qeq_bool x 0) eqn:Hzero;
    [apply Qeq_bool_iff in Hzero; lra|].
  rewrite Qabs_nonneg_eq by lra.
  pose proof (binary_exponent_upper (proj1 Hk) Hpos Hlt) as Hexp.
  set (t := Z.max (Fl.binary_exponent x) (-126) - 23).
  assert (Ht : t <= k - 24) by lia.
  rewrite round_to_negative by lia.
  set (n := 2 ^ (- t)).
  assert (Hn : 2 ^ (24 - k) <= n)
    by (apply Z.pow_le_mono_r; lia).
  assert (Hn23 : 2 ^ 23 <= 2 ^ (24 - k))
    by (apply Z.pow_le_mono_r; lia).
  assert (Hnq : (inject_Z (2 ^ 23) <= inject_Z n)%Q)
    by (rewrite <- Zle_Qle; lia).
  assert (Hsign : Fl.Qlt_bool x 0 = false)
    by (apply Qlt_bool_false_iff; lra).
  rewrite Hsign.
  set (m := Fl.round_half_even (x * inject_Z n)).
  assert (Hm : (inject_Z m <= x * inject_Z n + 1)%Q)
    by apply round_half_even_upper.
  assert (Hfin : Qle_bool (inject_Z (2 ^ 128)) (inject_Z m / inject_Z n)
                 = false).
  { destruct (Qle_bool (inject_Z (2 ^ 128)) (inject_Z m / inject_Z n))
      eqn:E; [|reflexivity].
    exfalso. apply Qle_bool_iff in E.
    assert (Hnpos : (0 < inject_Z n)%Q)
      by (change (inject_Z (2 ^ 23)) with 8388608%Q in Hnq; lra).
    assert (Hx2 : (x < 2)%Q).
    { assert (Hpow : (inject_Z (2 ^ k) <= 2)%Q).
      { change 2%Q with (inject_Z 2). rewrite <- Zle_Qle.
        assert (k = 0 \/ k = 1) as [->| ->] by lia; simpl; lia. }
      lra. }
    assert (Hq : (inject_Z m / inject_Z n <= x + 1)%Q).
    { apply Qle_shift_div_r; [exact Hnpos|].
      change (inject_Z (2 ^ 23)) with 8388608%Q in Hnq. nra. }
    change (inject_Z (2 ^ 128)) with (inject_Z 340282366920938463463374607431768211456) in E.
    assert (Hbig : (3 < inject_Z 340282366920938463463374607431768211456)%Q)
      by (unfold Qlt; simpl; lia).
    lra. }
  rewrite Hfin. exists n. split; [exact Hn | reflexivity].
Qed.


(** A number of [[0, 2)] stays finite. *)
Lemma narrow_small_fin (x : Q) :
  (0 <= x)%Q -> (x < 2)%Q -> exists y, Fl.narrow (Fin x) = Fin y.
Proof.
  intros Hlo Hhi. simpl.
  destruct (Qeq_bool x 0) eqn:Hzero.
  - exists 0%Q. unfold Fl.to_binary32. rewrite Hzero. reflexivity.
  - apply Qeq_bool_neq in Hzero.
    assert (Hpos : (0 < x)%Q).
    { destruct (Qlt_le_dec 0 x) as [Hp|Hp]; [exact Hp|].
      exfalso. apply Hzero. lra. }
    destruct (@to_binary32_small x 1 ltac:(lia) Hpos Hhi) as (n & _ & Hn).
    eexists. exact Hn.
Qed.

(** Below [1 - 2^-25], the midpoint of the last two binary32 numbers up to
    1, a number of the unit interval stays in it. *)
Lemma narrow_below_one (x : Q) :
  (0 <= x)%Q -> (x < 1 - (1 # 33554432))%Q -> Fl.in_unit (Fl.narrow (Fin x)).
Proof.
  intros Hlo Hhi. simpl.
  destruct (Qeq_bool x 0) eqn:Hzero.
  - unfold Fl.to_binary32. rewrite Hzero. simpl. split; lra.
  - apply Qeq_bool_neq in Hzero.
    assert (Hpos : (0 < x)%Q).
    { destruct (Qlt_le_dec 0 x) as [Hp|Hp]; [exact Hp|].
      exfalso. apply Hzero. lra. }
    assert (Hone : (x < inject_Z (2 ^ 0))%Q)
      by (change (inject_Z (2 ^ 0)) with 1%Q; lra).
    destruct (@to_binary32_small x 0 ltac:(lia) Hpos Hone) as (n & Hn & Heq).
    rewrite Heq. simpl Fl.in_unit.
    change (2 ^ (24 - 0)) with 16777216 in Hn.
    assert (Hnq : (16777216 <= inject_Z n)%Q).
    { change 16777216%Q with (inject_Z 16777216). rewrite <- Zle_Qle. lia. }
    assert (Hm0 : 0 <= Fl.round_half_even (x * inject_Z n)).
    { apply round_half_even_nonneg. apply Qmult_le_0_compat; lra. }
    assert (Hm1 : Fl.round_half_even (x * inject_Z n) <= n - 1).
    { apply round_half_even_below. nra. }
    set (m := Fl.round_half_even (x * inject_Z n)) in *.
    assert (Hmq0 : (0 <= inject_Z m)%Q)
      by (change 0%Q with (inject_Z 0); rewrite <- Zle_Qle; lia).
    assert (Hmq1 : (inject_Z m < inject_Z n)%Q)
      by (rewrite <- Zlt_Qlt; lia).
    split.
    + apply Qle_shift_div_l; lra.
    + apply Qlt_shift_div_r; lra.
Qed.

(** A number of [[1/2, 1)] has binary exponent -1. *)
Lemma binary_exponent_half (x : Q) :
  ((1 # 2) <= x)%Q -> (x < 1)%Q -> Fl.binary_exponent x = -1.
Proof.
  intros Hlo Hhi.
  assert (Hup : Fl.binary_exponent x <= 0 - 1).
  { apply binary_exponent_upper; [lia | lra|].
    change (inject_Z (2 ^ 0)) with 1%Q. exact Hhi. }
  unfold Fl.binary_exponent in *.
  set (e0 := Z.log2 (Qnum x) - Z.log2 (Z.pos (Qden x))) in *.
  assert (He0 : -1 <= e0).
  { unfold Qle in Hlo. simpl in Hlo.
    assert (Hden : Z.pos (Qden x) <= Qnum x * 2 ^ 1) by lia.
    apply Z.log2_le_mono in Hden.
    rewrite Z.log2_mul_pow2 in Hden by lia.
    unfold e0. lia. }
  destruct (Fl.Qlt_bool x (Fl.scale2 1 e0)) eqn:Hcmp; [|lia].
  apply Qlt_bool_iff in Hcmp.
  destruct (Z.eq_dec e0 (-1)) as [Heq|Hne]; [|lia].
  exfalso. rewrite Heq in Hcmp.
  change (Fl.scale2 1 (-1)) with (1 / inject_Z 2)%Q in Hcmp.
  assert (Hhalf : (1 / inject_Z 2 == 1 # 2)%Q) by reflexivity.
  rewrite Hhalf in Hcmp. lra.
Qed.

(** From [1 - 2^-25] on, a number below 1 becomes 1. *)
Lemma narrow_near_one (x : Q) :
  (1 - (1 # 33554432) <= x)%Q -> (x < 1)%Q ->
  Fl.eqb (Fl.narrow (Fin x)) Fl.one = true.
Proof.
  intros Hlo Hhi. simpl. unfold Fl.to_binary32.
  destruct (Qeq_bool x 0) eqn:Hzero;
    [apply Qeq_bool_iff in Hzero; lra|].
  rewrite Qabs_nonneg_eq by lra.
  rewrite binary_exponent_half by lra.
  change (Z.max (-1) (-126) - 23) with (-24).
  rewrite round_to_negative by lia.
  change (2 ^ (- -24)) with 16777216.
  assert (Hsign : Fl.Qlt_bool x 0 = false)
    by (apply Qlt_bool_false_iff; lra).
  rewrite Hsign.
  assert (Hround : Fl.round_half_even (x * inject_Z 16777216) = 16777216).
  { set (z := (x * inject_Z 16777216)%Q).
    assert (Hz0 : (inject_Z 16777215 + (1 # 2) <= z)%Q).
    { unfold z. change (inject_Z 16777215) with 16777215%Q.
      change (inject_Z 16777216) with 16777216%Q. lra. }
    assert (Hz1 : (z < inject_Z 16777216)%Q).
    { unfold z. change (inject_Z 16777216) with 16777216%Q. lra. }
    assert (Hfloor : Qfloor z = 16777215).
    { pose proof (Qfloor_le z) as H1. pose proof (Qlt_floor z) as H2.
      assert (Ha : (inject_Z (Qfloor z) < inject_Z 16777216)%Q) by lra.
      assert (Hb : (inject_Z 16777215 < inject_Z (Qfloor z + 1))%Q) by lra.
      rewrite <- Zlt_Qlt in Ha, Hb. lia. }
    unfold Fl.round_half_even. fold z. rewrite Hfloor.
    destruct (Fl.Qlt_bool (z - inject_Z 16777215) (1 # 2)) eqn:Hc1.
    - apply Qlt_bool_iff in Hc1. lra.
    - destruct (Fl.Qlt_bool (1 # 2) (z - inject_Z 16777215)); reflexivity. }
  rewrite Hround. reflexivity.
Qed.

End NarrowFacts.

(** Some values: [1/3] becomes [11184811 / 2^25]; the largest number below
    1 is kept; [1 - 2^-26] and the midpoint [1 - 2^-25] become 1;
    [2^24 + 1] becomes [2^24]; [2^128] overflows. *)
Example to_binary32_values :
  Fl.eqb (Fl.to_binary32 (1 # 3)) (Fin (11184811 # 33554432)) = true
  /\ Fl.eqb (Fl.to_binary32 (16777215 # 16777216))
            (Fin (16777215 # 16777216)) = true
  /\ Fl.eqb (Fl.to_binary32 (67108863 # 67108864)) Fl.one = true
  /\ Fl.eqb (Fl.to_binary32 (33554431 # 33554432)) Fl.one = true
  /\ Fl.eqb (Fl.to_binary32 (inject_Z 16777217)) (Fin (inject_Z 16777216))
     = true
  /\ Fl.to_binary32 (inject_Z (2 ^ 128)) = Inf false.
Proof. vm_compute. repeat split. Qed.

(* ------------------------------------------------------------------ *)
(** ** The dimension vector *)

Section Dimensions.

Lemma digit_reversal_zero (fuel : nat) (base : Z) :
  digit_reversal fuel base 0 = 0%Q.
Proof. destruct fuel; reflexivity. Qed.

(** A digit reversal is a fraction: it lies in [0,1) for every base, index
    and amount of fuel. *)
Lemma digit_reversal_unit (base : Z) : 0 < base ->
  forall fuel n,
    (0 <= digit_reversal fuel base n)%Q /\ (digit_reversal fuel base n < 1)%Q.
Proof.
  intros Hbase. induction fuel as [|fuel IH]; intros n; simpl.
  - split; [apply Qle_refl | reflexivity].
  - destruct (n <=? 0); [split; [apply Qle_refl | reflexivity]|].
    destruct (IH (n / base)) as [Hlo Hhi].
    pose proof (Z.mod_pos_bound n base Hbase) as Hdigit.
    assert (Hb : (0 < inject_Z base)%Q)
      by (unfold Qlt; simpl; lia).
    assert (Hd0 : (0 <= inject_Z (n mod base))%Q)
      by (unfold Qle; simpl; lia).
    assert (Hd1 : (inject_Z (n mod base) + 1 <= inject_Z base)%Q).
    { unfold Qle, Qplus; simpl; lia. }
    generalize dependent (inject_Z (n mod base)).
    generalize dependent (inject_Z base).
    generalize dependent (digit_reversal fuel base (n / base)).
    intros r Hr0 Hr1 b Hb a Ha0 Ha1.
    split.
    + apply Qle_shift_div_l; [exact Hb|]. lra.
    + apply Qlt_shift_div_r; [exact Hb|]. lra.
Qed.

(** 64 digits are all the digits of a 64-bit index: more fuel does not
    change the value. *)
Lemma digit_reversal_fuel (base : Z) : 2 <= base ->
  forall fuel extra n, 0 <= n < 2 ^ Z.of_nat fuel ->
    digit_reversal (fuel + extra) base n = digit_reversal fuel base n.
Proof.
  intros Hbase. induction fuel as [|fuel IH]; intros extra n Hn.
  - simpl in Hn. assert (n = 0) by lia. subst n.
    destruct extra; reflexivity.
  - simpl. destruct (n <=? 0) eqn:E; [reflexivity|].
    rewrite IH; [reflexivity|].
    rewrite Nat2Z.inj_succ, Z.pow_succ_r in Hn by lia.
    split; [apply Z.div_pos; lia|].
    apply Z.div_lt_upper_bound; [lia|]. nia.
Qed.

(** The distance of a digit reversal to 1: at least [1 / (base * n)]. *)
Lemma digit_reversal_gap (base : Z) : 2 <= base ->
  forall fuel n, 1 <= n ->
    (digit_reversal fuel base n * inject_Z (base * n)
     <= inject_Z (base * n) - 1)%Q.
Proof.
  intros Hbase. induction fuel as [|fuel IH]; intros n Hn.
  - simpl. assert (H1 : (1 <= inject_Z (base * n))%Q)
      by (change 1%Q with (inject_Z 1); rewrite <- Zle_Qle; nia).
    lra.
  - simpl. destruct (Z.leb_spec n 0) as [Hle|_]; [lia|].
    pose proof (Z.div_mod n base ltac:(lia)) as Hsplit.
    pose proof (Z.mod_pos_bound n base ltac:(lia)) as Hdigit.
    assert (Hq0 : 0 <= n / base) by (apply Z.div_pos; lia).
    destruct (digit_reversal_unit (base := base) ltac:(lia) fuel (n / base))
      as [HF0 HF1].
    assert (HIH : n / base = 0
                  \/ (1 <= n / base
                      /\ (digit_reversal fuel base (n / base)
                          * inject_Z (base * (n / base))
                          <= inject_Z (base * (n / base)) - 1)%Q)).
    { destruct (Z.eq_dec (n / base) 0) as [Hz|Hnz]; [left; exact Hz|].
      right. split; [lia|]. apply IH. lia. }
    pose proof (f_equal inject_Z Hsplit) as HN.
    rewrite inject_Z_plus, inject_Z_mult in HN.
    rewrite !inject_Z_mult in *.
    assert (HB : (2 <= inject_Z base)%Q)
      by (unfold Qle; simpl; lia).
    assert (HD0 : (0 <= inject_Z (n mod base))%Q)
      by (unfold Qle; simpl; lia).
    assert (HD1 : (inject_Z (n mod base) <= inject_Z base - 1)%Q).
    { unfold Qle, Qminus, Qplus, Qopp. simpl. lia. }
    assert (HQ0 : (0 <= inject_Z (n / base))%Q)
      by (unfold Qle; simpl; lia).
    assert (HN1 : (1 <= inject_Z n)%Q)
      by (unfold Qle; simpl; lia).
    assert (Heq : ((inject_Z (n mod base)
                    + digit_reversal fuel base (n / base))
                   / inject_Z base * (inject_Z base * inject_Z n)
                   == (inject_Z (n mod base)
                       + digit_reversal fuel base (n / base))
                      * inject_Z n)%Q) by (field; lra).
    rewrite Heq.
    destruct HIH as [Hz|[_ Hgap]].
    + rewrite Hz, digit_reversal_zero in *.
      change (inject_Z 0) with 0%Q in HN.
      set (D := inject_Z (n mod base)) in *. clearbody D.
      set (Nn := inject_Z n) in *. clearbody Nn.
      set (B := inject_Z base) in *. clearbody B.
      assert (HND : Nn == D) by (rewrite HN; ring).
      assert (H1 : (0 <= (B - 1 - D) * D)%Q)
        by (apply Qmult_le_0_compat; lra).
      rewrite HND in *. nra.
    + set (F := digit_reversal fuel base (n / base)) in *. clearbody F.
      set (D := inject_Z (n mod base)) in *. clearbody D.
      set (Qq := inject_Z (n / base)) in *. clearbody Qq.
      set (Nn := inject_Z n) in *. clearbody Nn.
      set (B := inject_Z base) in *. clearbody B.
      assert (H1 : (0 <= (B - 1 - D) * Nn)%Q)
        by (apply Qmult_le_0_compat; lra).
      assert (H2 : (0 <= (1 - F) * D)%Q)
        by (apply Qmult_le_0_compat; lra).
      rewrite HN in *. nra.
Qed.

Lemma halton_1d_unit (prime n : Z) :
  0 < prime -> Fl.in_unit (halton_1d prime 0 n).
Proof.
  intros Hp. unfold halton_1d, Fl.in_unit.
  destruct (digit_reversal_unit Hp 64 n) as [Hlo Hhi].
  generalize dependent (digit_reversal 64 prime n). intros r Hlo Hhi.
  split; lra.
Qed.

Lemma fractf_unit (x : Q) : Fl.in_unit (Fl.fractf (Fin x)).
Proof.
  unfold Fl.fractf, Fl.sub, Fl.floor, Fl.neg, Fl.add, Fl.in_unit.
  pose proof (Qfloor_le x) as Hlo. pose proof (Qlt_floor x) as Hhi.
  rewrite inject_Z_plus in Hhi.
  generalize dependent (inject_Z (Qfloor x)). intros f Hlo Hhi.
  change (inject_Z 1) with 1%Q in Hhi.
  split; lra.
Qed.

Lemma fractf_shift_unit (prime n : Z) (c : Q) :
  Fl.in_unit (Fl.fractf (Fl.add (halton_1d prime 0 n) (Fin c))).
Proof. unfold halton_1d, Fl.add. apply fractf_unit. Qed.

(** The shifted draws stay finite when they are stored into a [float], so
    their fractional part is in the unit interval for every index. *)
Lemma fractf_narrow_unit (prime n : Z) (c : Q) :
  0 < prime -> (0 <= c)%Q -> (c <= 1)%Q ->
  Fl.in_unit (Fl.fractf (Fl.narrow (Fl.add (halton_1d prime 0 n) (Fin c)))).
Proof.
  intros Hp Hc0 Hc1. unfold halton_1d, Fl.add.
  destruct (digit_reversal_unit Hp 64 n) as [Hlo Hhi].
  destruct (@narrow_small_fin (0 + digit_reversal 64 prime n + c))
    as [y Hy]; [lra | lra |].
  rewrite Hy. apply fractf_unit.
Qed.

(** A draw stays below 1 when it is stored into a [float] as long as
    [prime * n < 2^25]. *)
Lemma halton_narrow_unit (prime n : Z) :
  2 <= prime -> 0 <= n -> prime * n < 2 ^ 25 ->
  Fl.in_unit (Fl.narrow (halton_1d prime 0 n)).
Proof.
  intros Hp Hn Hsmall. unfold halton_1d.
  destruct (digit_reversal_unit (base := prime) ltac:(lia) 64 n) as [Hlo Hhi].
  apply narrow_below_one; [lra|].
  destruct (Z.eq_dec n 0) as [->|Hnz].
  - rewrite digit_reversal_zero. lra.
  - pose proof (@digit_reversal_gap prime Hp 64 n ltac:(lia)) as Hgap.
    assert (HP : (1 <= inject_Z (prime * n))%Q)
      by (change 1%Q with (inject_Z 1); rewrite <- Zle_Qle; nia).
    assert (HP' : (inject_Z (prime * n) <= 33554431)%Q).
    { change 33554431%Q with (inject_Z 33554431). rewrite <- Zle_Qle.
      change (2 ^ 25) with 33554432 in Hsmall. lia. }
    generalize dependent (inject_Z (prime * n)).
    generalize dependent (digit_reversal 64 prime n).
    intros F HF0 HF1 P HgapP HP HP'. nra.
Qed.

Lemma in_unit_asserts (v : float) :
  Fl.in_unit v -> dimension_asserts v = true.
Proof.
  destruct v as [| |x]; simpl; try contradiction.
  intros [Hlo Hhi]. unfold dimension_asserts, Fl.ge, Fl.lt, Fl.zero, Fl.one.
  simpl. apply andb_true_iff. split.
  - apply Qle_bool_iff. exact Hlo.
  - apply Qlt_bool_iff. exact Hhi.
Qed.

Lemma all_dimensions_complete (d : eSamplingDimension) :
  In d all_dimensions.
Proof. destruct d; simpl; tauto. Qed.

Lemma dimension_count : SAMPLING_DIMENSION_COUNT = 32%nat.
Proof. reflexivity. Qed.

Lemma div_range (a b : Z) : 0 <= a -> 0 <= b -> 0 <= a / b <= a.
Proof.
  intros Ha Hb. destruct (Z.eq_dec b 0) as [->|Hnz].
  - rewrite Z.div_0_r. lia.
  - split; [apply Z.div_pos; lia|].
    apply Z.div_le_upper_bound; [lia | nia].
Qed.

Lemma mod_range (a m : Z) : 0 <= a -> 0 <= m -> 0 <= a mod m <= a.
Proof.
  intros Ha Hm. destruct (Z.eq_dec m 0) as [->|Hnz].
  - rewrite Z.mod_0_r. lia.
  - split; [apply Z.mod_pos_bound; lia | apply Z.mod_le; lia].
Qed.

Lemma halton_narrow_unit_index (prime idx bound : Z) :
  2 <= prime <= 11 -> 0 <= idx <= bound -> 11 * bound < 2 ^ 25 ->
  Fl.in_unit (Fl.narrow (halton_1d prime 0 (wrap64 idx))).
Proof.
  intros Hp Hidx Hbound.
  change (2 ^ 25) with 33554432 in Hbound.
  rewrite wrap64_small by (change (2 ^ 64) with 18446744073709551616; lia).
  apply halton_narrow_unit; try lia.
  change (2 ^ 25) with 33554432. nia.
Qed.

Variable hdr : Header.

(** Before the values are stored into the [float] slots, that is with exact
    numbers in the slots, every slot is in [0,1), for every state. *)
Lemma step_dimensions_exact_unit
    (inst : Inst) (s : Sampling) (d : eSamplingDimension) :
  Fl.in_unit (step_dimensions_with hdr (fun v => v) inst s d).
Proof.
  unfold step_dimensions_with, BLI_halton_2d, BLI_halton_3d.
  cbn [fst snd].
  destruct d; cbn [dim_set eSamplingDimension_beq];
    first [ apply halton_1d_unit; lia
          | apply fractf_shift_unit
          | (simpl; split; [apply Qle_refl | reflexivity]) ].
Qed.

(** These slots are in [0,1) after [step], for every state. *)
Lemma step_fraction_slots_unit
    (inst : Inst) (s : Sampling) (d : eSamplingDimension) :
  is_fraction_slot d = true -> Fl.in_unit (data_ (step hdr inst s) d).
Proof.
  intros Hd. unfold step.
  cbn [data_ set_reset set_sample set_viewport_sample set_data].
  unfold step_dimensions, step_dimensions_with, BLI_halton_2d, BLI_halton_3d.
  cbn [fst snd].
  destruct d; try discriminate Hd; cbn [dim_set eSamplingDimension_beq];
    first [ apply fractf_narrow_unit; [lia | lra | lra]
          | (simpl; split; [apply Qle_refl | reflexivity]) ].
Qed.

(** Where the claim C1 holds: as long as the sample counter is small enough
    for every index [n] of a draw to satisfy [11 * n < 2^25] (the largest
    index is [13 * sample_ + 1], the largest prime is 11), every slot is in
    [0,1) after [step] and passes the two assertions. *)
Lemma step_dimensions_unit_small_index
    (inst : Inst) (s : Sampling) (d : eSamplingDimension) :
  0 <= interactive_sample_aa_ hdr ->
  0 <= interactive_sample_raytrace_ hdr ->
  0 <= interactive_sample_volume_ hdr ->
  0 <= sample_ s ->
  11 * (13 * sample_ s + 1) < 2 ^ 25 ->
  Fl.in_unit (data_ (step hdr inst s) d)
  /\ dimension_asserts (data_ (step hdr inst s) d) = true.
Proof.
  intros Haa Hrt Hvol Hs Hsmall.
  assert (Hunit : Fl.in_unit (data_ (step hdr inst s) d)).
  { unfold step.
    cbn [data_ set_reset set_sample set_viewport_sample set_data].
    unfold step_dimensions, step_dimensions_with, BLI_halton_2d,
      BLI_halton_3d, interactive_mode.
    cbn [fst snd].
    pose proof (wrap64_range (square_i (film_scaling_factor inst))) as Hk.
    pose proof (@div_range (sample_ s)
                  (wrap64 (square_i (film_scaling_factor inst)))
                  Hs (proj1 Hk)) as Hdiv.
    set (sample_filter :=
           if interactive_mode_ s
           then (sample_ s / wrap64 (square_i (film_scaling_factor inst)))
                mod interactive_sample_aa_ hdr
           else sample_ s / wrap64 (square_i (film_scaling_factor inst))).
    set (sample_raytrace :=
           if interactive_mode_ s
           then sample_ s mod interactive_sample_raytrace_ hdr
           else sample_ s).
    set (sample_volume :=
           if interactive_mode_ s
           then sample_ s mod interactive_sample_volume_ hdr
           else sample_ s).
    assert (Hsf : 0 <= sample_filter <= sample_ s).
    { unfold sample_filter. destruct (interactive_mode_ s); [|exact Hdiv].
      pose proof (@mod_range _ (interactive_sample_aa_ hdr) (proj1 Hdiv) Haa).
      lia. }
    assert (Hsr : 0 <= sample_raytrace <= sample_ s).
    { unfold sample_raytrace. destruct (interactive_mode_ s); [|lia].
      apply mod_range; assumption. }
    assert (Hsv : 0 <= sample_volume <= sample_ s).
    { unfold sample_volume. destruct (interactive_mode_ s); [|lia].
      apply mod_range; assumption. }
    clearbody sample_filter sample_raytrace sample_volume.
    destruct d; cbn [dim_set eSamplingDimension_beq];
      first [ apply fractf_narrow_unit; [lia | lra | lra]
            | apply halton_narrow_unit_index
                with (bound := 13 * sample_ s + 1); [lia | lia | exact Hsmall]
            | (simpl; split; [apply Qle_refl | reflexivity]) ]. }
  split; [exact Hunit | apply in_unit_asserts; exact Hunit].
Qed.

(** The leaped draw of the slot [SAMPLING_SHADOW_X] depends on the sample
    counter only: at [sample_ = 6710886] the slot fails the assertion for
    every header, every context and every other member of the state. *)
Lemma step_shadow_x_reaches_one (inst : Inst) (s : Sampling) :
  dimension_asserts
    (data_ (step hdr inst (set_sample 6710886 s)) SAMPLING_SHADOW_X) = false.
Proof.
  unfold step.
  cbn [data_ set_reset set_sample set_viewport_sample set_data].
  unfold step_dimensions, step_dimensions_with, BLI_halton_2d, BLI_halton_3d.
  cbn [fst snd dim_set eSamplingDimension_beq sample_ set_sample].
  vm_compute. reflexivity.
Qed.

End Dimensions.

Lemma step_dimensions_unit_small_index_example :
  Fl.in_unit
    (data_ (step hdr_example inst_viewport (set_sample 1000 fresh))
           SAMPLING_TIME).
Proof.
  apply (@step_dimensions_unit_small_index hdr_example inst_viewport
           (set_sample 1000 fresh) SAMPLING_TIME); simpl; lia.
Qed.

(** C1, at failing inputs.  At [sample_ = 2^26 - 2] (interactive mode off,
    no up-scaling) the first draw has index [2^26 - 1]; its base-2 digit
    reversal is [1 - 2^-26], which is nearer to 1 than to the largest
    binary32 number below 1, so the slot [SAMPLING_TIME] receives exactly 1
    and the assertion [data_.dimensions[i] < 1.0f] of [step] fails.  At
    [sample_ = 6710886] the leaped draw has index [5 * 6710886 + 1 = 2^25 - 1]
    and [SAMPLING_SHADOW_X] receives 1 in the same way (a tie, rounded to
    even), whatever the interactive flag is. *)
Theorem step_dimension_reaches_one :
  Fl.eqb (data_ (step hdr_example inst_viewport (set_sample 67108862 fresh))
                SAMPLING_TIME) Fl.one = true
  /\ dimension_asserts
       (data_ (step hdr_example inst_viewport (set_sample 67108862 fresh))
              SAMPLING_TIME) = false
  /\ Fl.eqb (data_ (step hdr_example inst_viewport
                         (set_interactive_mode true
                            (set_sample 6710886 fresh)))
                   SAMPLING_SHADOW_X) Fl.one = true
  /\ dimension_asserts
       (data_ (step hdr_example inst_viewport
                    (set_interactive_mode true (set_sample 6710886 fresh)))
              SAMPLING_SHADOW_X) = false.
Proof. vm_compute. repeat split. Qed.

(* ------------------------------------------------------------------ *)
(** ** Sample count derivation *)

Section SampleCount.

Variable hdr : Header.

Lemma web_sample_count_succ (web_density ring : Z) :
  sampling_web_sample_count_get web_density (ring + 1)
  = sampling_web_sample_count_get web_density ring + (ring + 1) * web_density.
Proof.
  unfold sampling_web_sample_count_get.
  replace ((ring + 1) * (ring + 1) + (ring + 1))
    with (ring * ring + ring + (ring + 1) * 2) by ring.
  rewrite Z.div_add by lia. ring.
Qed.

Lemma web_sample_count_pos (web_density ring : Z) :
  0 <= web_density -> 0 <= ring ->
  1 <= sampling_web_sample_count_get web_density ring.
Proof.
  intros Hd Hr. unfold sampling_web_sample_count_get.
  assert (0 <= (ring * ring + ring) / 2) by (apply Z.div_pos; nia).
  nia.
Qed.

Lemma init_target_sample_count_nonneg inst scene :
  0 <= infinite_sample_count_ hdr ->
  0 <= init_target_sample_count hdr inst scene.
Proof.
  intros Hinf. unfold init_target_sample_count.
  repeat match goal with
         | |- context [if ?b then _ else _] => destruct b
         end;
    try apply wrap64_range; try lia;
    try (pose proof (wrap64_range (taa_samples scene)); lia);
    try (pose proof (wrap64_range (view_layer_samples inst)); lia);
    try (pose proof (wrap64_range (taa_render_samples scene)); lia).
Qed.

Lemma divide_ceil_u_bounds (a b : Z) :
  0 <= a -> 0 < b ->
  0 <= divide_ceil_u a b /\ divide_ceil_u a b * b <= a + b - 1.
Proof.
  intros Ha Hb. unfold divide_ceil_u. split.
  - apply Z.div_pos; lia.
  - rewrite Z.mul_comm. apply Z.mul_div_le. exact Hb.
Qed.

(** C9.  With depth of field jitter enabled, [init] stores as web sample
    count the size of the web pattern for the ring count and density it
    derived, and the sample count is a multiple of it, both after the
    rounding of line 71 and after the multiplication by the motion blur step
    count of line 79.  The last hypothesis says that the sample count fits
    its 64-bit member. *)
Theorem init_sample_count_multiple_of_web
    (inst : Inst) (scene : Scene) (s : Sampling) :
  flag_dof_jitter scene = true ->
  0 <= infinite_sample_count_ hdr ->
  0 <= dof_web_density_ hdr ->
  0 < motion_blur_steps_ (init hdr inst scene s) ->
  (init_pre_jitter_sample_count hdr inst scene
   + sampling_web_sample_count_get
       (dof_web_density_ hdr) (dof_ring_count_ (init hdr inst scene s)))
  * motion_blur_steps_ (init hdr inst scene s) < 2 ^ 64 ->
  dof_sample_count_ (init hdr inst scene s)
  = sampling_web_sample_count_get
      (dof_web_density_ hdr) (dof_ring_count_ (init hdr inst scene s))
  /\ (dof_sample_count_ (init hdr inst scene s)
      | init_jittered_sample_count hdr inst scene)
  /\ (dof_sample_count_ (init hdr inst scene s)
      | sample_count_ (init hdr inst scene s)).
Proof.
  intros Hjit Hinf Hden.
  unfold init_jittered_sample_count, init, init_dof. rewrite Hjit.
  cbn [motion_blur_steps_ dof_ring_count_ dof_sample_count_ sample_count_
       set_clamp_data set_sample_count set_dof set_motion_blur_steps snd].
  set (mbs := init_motion_blur_steps inst scene).
  set (n := init_pre_jitter_sample_count hdr inst scene).
  set (ring := if n =? infinite_sample_count_ hdr then 6
               else wrap64 (sampling_web_ring_count_get
                              hdr (dof_web_density_ hdr) n)).
  set (W := sampling_web_sample_count_get (dof_web_density_ hdr) ring).
  intros Hmbs Hfit.
  assert (Hn : 0 <= n).
  { unfold n, init_pre_jitter_sample_count.
    apply divide_ceil_u_bounds; [|exact Hmbs].
    apply init_target_sample_count_nonneg. exact Hinf. }
  assert (Hring : 0 <= ring).
  { unfold ring. destruct (n =? infinite_sample_count_ hdr); [lia|].
    apply wrap64_range. }
  assert (HW : 1 <= W) by (apply web_sample_count_pos; assumption).
  assert (HW64 : W < 2 ^ 64) by nia.
  rewrite (wrap64_small (z := W)) by lia.
  destruct (divide_ceil_u_bounds (a := n) (b := W)) as [Hq0 Hq1]; try lia.
  rewrite (wrap64_small (z := divide_ceil_u n W * W)) by nia.
  rewrite wrap64_small by nia.
  split; [reflexivity|]. split.
  - apply Z.divide_factor_r.
  - apply Z.divide_mul_l. apply Z.divide_factor_r.
Qed.

End SampleCount.

Lemma init_sample_count_multiple_of_web_witness :
  dof_web_density_ hdr_example = 6
  /\ init_pre_jitter_sample_count hdr_example inst_render scene_example = 10
  /\ dof_sample_count_ (init hdr_example inst_render scene_example fresh)
     = sampling_web_sample_count_get
         6 (dof_ring_count_ (init hdr_example inst_render scene_example fresh))
  /\ (dof_sample_count_ (init hdr_example inst_render scene_example fresh)
      | init_jittered_sample_count hdr_example inst_render scene_example)
  /\ (dof_sample_count_ (init hdr_example inst_render scene_example fresh)
      | sample_count_ (init hdr_example inst_render scene_example fresh)).
Proof.
  split; [reflexivity|]. split; [reflexivity|].
  apply (@init_sample_count_multiple_of_web
           hdr_example inst_render scene_example fresh).
  - reflexivity.
  - simpl. lia.
  - simpl. lia.
  - vm_compute. reflexivity.
  - vm_compute. reflexivity.
Defined.

(** With density 6 and ten samples entering the jitter block the pattern has
    two rings and 19 samples, and the sample count becomes 19. *)
Example init_density_6_count_10 :
  dof_ring_count_ (init hdr_example inst_render scene_example fresh) = 2
  /\ dof_sample_count_ (init hdr_example inst_render scene_example fresh) = 19
  /\ sample_count_ (init hdr_example inst_render scene_example fresh) = 19.
Proof. vm_compute. repeat split. Qed.

(* ------------------------------------------------------------------ *)
(** ** The depth of field web sampler *)

Section DofFacts.

Variable hdr : Header.

Let density : Z := dof_web_density_ hdr.
Let W (ring : Z) : Z := sampling_web_sample_count_get density ring.

Lemma web_sample_count_mono (j k : Z) :
  0 <= density -> 0 <= j <= k -> W j <= W k.
Proof.
  intros Hd [Hj Hjk].
  replace k with (j + Z.of_nat (Z.to_nat (k - j))) by lia.
  induction (Z.to_nat (k - j)) as [|m IH].
  - replace (j + Z.of_nat 0) with j by lia. lia.
  - rewrite Nat2Z.inj_succ.
    replace (j + Z.succ (Z.of_nat m)) with (j + Z.of_nat m + 1) by lia.
    unfold W in *. rewrite web_sample_count_succ. nia.
Qed.



(** For the first sample the three narrowing steps give 0 and the loop takes
    no turn. *)
Lemma dof_web_sample_first (s : Sampling) :
  sample_ s = 1 -> dof_sample_count_ s <> 0 ->
  dof_web_sample hdr s = Some (0, 1, 1).
Proof.
  intros Hsample Hcount.
  unfold dof_web_sample. rewrite Hsample.
  destruct (Z.eqb_spec (dof_sample_count_ s) 0) as [Heq|_]; [contradiction|].
  change (to_int (wrap64 (1 - 1))) with 0.
  change (wrap64 0) with 0.
  rewrite Z.mul_0_l.
  change (to_int (wrap64 0)) with 0.
  change (wrap64 0) with 0.
  rewrite Z.mod_0_l by exact Hcount.
  reflexivity.
Qed.

(** C10.  For the first sample ([sample_ = 1]) the loop takes no turn: the
    ring stays 0, the two ring locals keep their initial value 1, and the
    radius is 0, for every positive ring count and every web density. *)
Theorem dof_disk_first_sample_center (s : Sampling) :
  sample_ s = 1 ->
  0 < dof_ring_count_ s ->
  dof_sample_count_ s <> 0 ->
  dof_web_sample hdr s = Some (0, 1, 1)
  /\ exists radius theta,
       dof_disk_sample_get hdr s = Some (radius, theta) /\ radius = 0%R.
Proof.
  intros Hsample Hring Hcount.
  pose proof (dof_web_sample_first s Hsample Hcount) as Hweb.
  split; [exact Hweb|].
  unfold dof_disk_sample_get. rewrite Hweb.
  destruct (Z.eqb_spec (dof_ring_count_ s) 0) as [Heq|_]; [lia|].
  eexists. eexists. split; [reflexivity|].
  unfold Rdiv. apply Rmult_0_l.
Qed.




End DofFacts.

Lemma dof_disk_first_sample_center_witness :
  dof_web_sample hdr_example (set_dof 2 19 (set_sample 1 fresh))
  = Some (0, 1, 1)
  /\ exists radius theta,
       dof_disk_sample_get hdr_example (set_dof 2 19 (set_sample 1 fresh))
       = Some (radius, theta) /\ radius = 0%R.
Proof.
  apply (@dof_disk_first_sample_center
           hdr_example (set_dof 2 19 (set_sample 1 fresh))).
  - reflexivity.
  - simpl. lia.
  - simpl. lia.
Defined.


(** The second sample of that pattern lies on the first ring, at position 5
    of 6. *)
Example dof_web_second_sample :
  dof_web_sample hdr_example (set_dof 2 19 (set_sample 2 fresh))
  = Some (1, 6, 5).
Proof. vm_compute. reflexivity. Qed.


(* ------------------------------------------------------------------ *)
(** ** Vectors and first-match search *)

Section VectorFacts.
Variable A : Type.

Lemma vset_length i (x : A) v : length (vset i x v) = length v.
Proof.
  revert i. induction v as [|h t IH]; intros [|i]; simpl; auto.
Qed.

Lemma nth_vset_same i (x : A) v d :
  (i < length v)%nat -> nth i (vset i x v) d = x.
Proof.
  revert i. induction v as [|h t IH]; intros [|i] Hi; simpl in *;
    try lia; auto. apply IH. lia.
Qed.

Lemma nth_vset_other i j (x : A) v d :
  i <> j -> nth j (vset i x v) d = nth j v d.
Proof.
  revert i j. induction v as [|h t IH]; intros [|i] [|j] Hij; simpl;
    try congruence; auto.
Qed.

Lemma sweep_length h (w : nat -> nat -> A) k v :
  length (sweep h w k v) = length v.
Proof.
  unfold sweep. induction k as [|k IH]; [reflexivity|].
  rewrite seq_S, fold_left_app. simpl.
  destruct (h k); [rewrite vset_length|]; exact IH.
Qed.

Lemma sweep_nth h (w : nat -> nat -> A) k v u d :
  (u < length v)%nat ->
  nth u (sweep h w k v) d
  = if (u <? k)%nat
    then match h u with Some i => w u i | None => nth u v d end
    else nth u v d.
Proof.
  intros Hu. induction k as [|k IH]; [reflexivity|].
  unfold sweep in *. rewrite seq_S, fold_left_app. simpl.
  fold (sweep h w k v) in *.
  destruct (Nat.eq_dec u k) as [->|Hne].
  - assert (Hk : (k <? S k)%nat = true) by (apply Nat.ltb_lt; lia).
    rewrite Hk.
    destruct (h k) as [i|].
    + apply nth_vset_same. rewrite sweep_length. exact Hu.
    + rewrite IH. rewrite Nat.ltb_irrefl. reflexivity.
  - assert (Hsame : (u <? S k)%nat = (u <? k)%nat).
    { destruct (Nat.ltb_spec u k), (Nat.ltb_spec u (S k)); auto; lia. }
    rewrite Hsame, <- IH.
    destruct (h k) as [i|]; [|reflexivity].
    apply nth_vset_other. auto.
Qed.

End VectorFacts.

Section FindFacts.

Variable f : nat -> bool.

Lemma find_seq_some (n a i : nat) :
  find f (seq a n) = Some i ->
  (a <= i < a + n)%nat /\ f i = true
  /\ forall j, (a <= j < i)%nat -> f j = false.
Proof.
  revert a. induction n as [|n IH]; intros a Hfind; simpl in Hfind.
  - discriminate.
  - destruct (f a) eqn:Hfa.
    + injection Hfind as <-. repeat split; auto; lia.
    + apply IH in Hfind as (Hrange & Hfi & Hbefore).
      repeat split; auto; try lia.
      intros j Hj. destruct (Nat.eq_dec j a) as [->|Hne]; [exact Hfa|].
      apply Hbefore. lia.
Qed.

Lemma find_seq_exists (n a j : nat) :
  (a <= j < a + n)%nat -> f j = true ->
  exists i, find f (seq a n) = Some i.
Proof.
  intros Hj Hfj. destruct (find f (seq a n)) as [i|] eqn:Hfind.
  - exists i. reflexivity.
  - pose proof (find_none f (seq a n) Hfind j) as Hnone.
    rewrite Hnone in Hfj; [discriminate|].
    apply in_seq. lia.
Qed.

End FindFacts.

(* ------------------------------------------------------------------ *)
(** ** Floating-point order *)

Section FloatFacts.

Lemma fl_le_fin (x y : Q) : Fl.le (Fin x) (Fin y) = true <-> (x <= y)%Q.
Proof. simpl. apply Qle_bool_iff. Qed.

Lemma fl_lt_fin (x y : Q) : Fl.lt (Fin x) (Fin y) = true <-> (x < y)%Q.
Proof. simpl. apply Qlt_bool_iff. Qed.

Lemma fl_lt_fin_false (x y : Q) :
  Fl.lt (Fin x) (Fin y) = false <-> (y <= x)%Q.
Proof.
  simpl. unfold Fl.Qlt_bool. rewrite negb_false_iff. apply Qle_bool_iff.
Qed.

Lemma fl_le_trans (a b c : float) :
  Fl.le a b = true -> Fl.le b c = true -> Fl.le a c = true.
Proof.
  destruct a as [|[|]|x], b as [|[|]|y], c as [|[|]|z]; simpl;
    try discriminate; auto.
  rewrite !Qle_bool_iff. apply Qle_trans.
Qed.

Lemma fl_eqb_fin (a : float) (y : Q) :
  Fl.eqb a (Fin y) = true -> exists x, a = Fin x /\ (x == y)%Q.
Proof.
  destruct a as [| |x]; simpl; try discriminate.
  intros Heq. exists x. split; [reflexivity|].
  apply Qeq_bool_iff. exact Heq.
Qed.

Lemma fl_div_fin (x y : Q) :
  ~ (y == 0)%Q -> Fl.div (Fin x) (Fin y) = Fin (x / y).
Proof.
  intros Hy. simpl. destruct (Qeq_bool y 0) eqn:E; [|reflexivity].
  apply Qeq_bool_iff in E. contradiction.
Qed.

(** A clamped finite number is finite and lies between the bounds. *)
Lemma clamp_f_fin (v lo hi : Q) :
  (lo <= hi)%Q ->
  exists q, Fl.clamp_f (Fin v) (Fin lo) (Fin hi) = Fin q
            /\ (lo <= q <= hi)%Q
            /\ ((lo <= v <= hi)%Q -> (q == v)%Q)
            /\ ((v < lo)%Q -> (q == lo)%Q)
            /\ ((hi < v)%Q -> (q == hi)%Q).
Proof.
  intros Hlohi. unfold Fl.clamp_f, Fl.gt.
  destruct (Fl.lt (Fin hi) (Fin v)) eqn:Hgt.
  - apply fl_lt_fin in Hgt. exists hi. repeat split; try lra.
  - apply fl_lt_fin_false in Hgt.
    destruct (Fl.lt (Fin v) (Fin lo)) eqn:Hlt.
    + apply fl_lt_fin in Hlt. exists lo. repeat split; try lra.
    + apply fl_lt_fin_false in Hlt. exists v. repeat split; try lra.
Qed.

Lemma inject_Z_pos (z : Z) : 0 < z -> ~ (inject_Z z == 0)%Q.
Proof. intros Hz. unfold Qeq. simpl. lia. Qed.

(** The query point of [cdf_invert] is finite and inside
    [1e-5, 1 - 1e-5]; it is the clamped value of [u / (m - 1)]. *)
Lemma cdf_invert_query_fin (m u : nat) :
  (1 < m)%nat ->
  let v := (inject_Z (Z.of_nat u) / inject_Z (Z.of_nat m - 1))%Q in
  exists q, cdf_invert_query m u = Fin q
            /\ ((1 # 100000) <= q <= 1 - (1 # 100000))%Q
            /\ (((1 # 100000) <= v <= 1 - (1 # 100000))%Q -> (q == v)%Q)
            /\ ((v < (1 # 100000))%Q -> (q == (1 # 100000))%Q)
            /\ ((1 - (1 # 100000) < v)%Q -> (q == 1 - (1 # 100000))%Q).
Proof.
  intros Hm v. unfold cdf_invert_query, Fl.of_Z.
  rewrite fl_div_fin by (apply inject_Z_pos; lia).
  fold v.
  destruct (@clamp_f_fin v (1 # 100000) (1 + - (1 # 100000)) ltac:(lra))
    as (q & Hq & Hrange & Hmid & Hlow & Hhigh).
  exists q. split; [exact Hq|].
  repeat split; lra.
Qed.

End FloatFacts.

(* ------------------------------------------------------------------ *)
(** ** Inversion of a CDF *)

Section InvertFacts.

Lemma nondecreasing_step (v : list float) :
  nondecreasing v = true ->
  forall i, (S i < length v)%nat -> Fl.le (at_ v i) (at_ v (S i)) = true.
Proof.
  unfold at_. induction v as [|a [|b t] IH]; intros Hnd i Hi; simpl in Hi;
    try lia.
  change (nondecreasing (a :: b :: t))
    with (Fl.le a b && nondecreasing (b :: t)) in Hnd.
  apply andb_true_iff in Hnd as [Hab Hrest].
  destruct i as [|i]; [exact Hab|].
  change (nth (S i) (a :: b :: t) NaN) with (nth i (b :: t) NaN).
  change (nth (S (S i)) (a :: b :: t) NaN) with (nth (S i) (b :: t) NaN).
  apply IH; [exact Hrest | simpl; lia].
Qed.

Lemma nondecreasing_chain (v : list float) :
  nondecreasing v = true ->
  forall j i, (i < j < length v)%nat -> Fl.le (at_ v i) (at_ v j) = true.
Proof.
  intros Hnd. induction j as [|j IH]; intros i Hij; [lia|].
  destruct (Nat.eq_dec i j) as [->|Hne].
  - apply nondecreasing_step; [exact Hnd | lia].
  - apply fl_le_trans with (b := at_ v j).
    + apply IH. lia.
    + apply nondecreasing_step; [exact Hnd | lia].
Qed.

(** A vector that passes the assertion of [cdf_invert] and never decreases
    has at least two entries, all finite and inside [0,1]. *)
Lemma cdf_entries_unit (cdf : list float) :
  cdf_invert_assert cdf = true -> nondecreasing cdf = true ->
  (2 <= length cdf)%nat
  /\ (exists x0, at_ cdf 0 = Fin x0 /\ (x0 == 0)%Q)
  /\ (exists x1, at_ cdf (length cdf - 1) = Fin x1 /\ (x1 == 1)%Q)
  /\ forall i, (i < length cdf)%nat ->
       exists y, at_ cdf i = Fin y /\ (0 <= y <= 1)%Q.
Proof.
  intros Hassert Hnd. unfold cdf_invert_assert, vlast in Hassert.
  apply andb_true_iff in Hassert as [Hfirst Hlast].
  apply fl_eqb_fin in Hfirst as (x0 & H0 & Hx0).
  apply fl_eqb_fin in Hlast as (x1 & H1 & Hx1).
  assert (Hlen : (2 <= length cdf)%nat).
  { destruct cdf as [|a [|b t]]; simpl in *; try lia.
    - unfold at_ in H0. simpl in H0. discriminate.
    - unfold at_ in H0, H1. simpl in H0, H1.
      rewrite H0 in H1. injection H1 as <-. lra. }
  split; [exact Hlen|].
  split; [exists x0; auto|]. split; [exists x1; auto|].
  intros i Hi.
  destruct (Nat.eq_dec i 0) as [->|Hi0];
    [exists x0; split; [exact H0 | lra]|].
  destruct (Nat.eq_dec i (length cdf - 1)) as [->|Hi1];
    [exists x1; split; [exact H1 | lra]|].
  pose proof (@nondecreasing_chain cdf Hnd i 0 ltac:(lia)) as Hlow.
  pose proof (@nondecreasing_chain cdf Hnd (length cdf - 1) i ltac:(lia))
    as Hhigh.
  rewrite H0 in Hlow. rewrite H1 in Hhigh.
  destruct (at_ cdf i) as [|[|]|y]; simpl in Hlow, Hhigh; try discriminate.
  exists y. split; [reflexivity|].
  apply Qle_bool_iff in Hlow. apply Qle_bool_iff in Hhigh. lra.
Qed.

(** [cdf_invert] is a sweep over the output table. *)
Lemma cdf_invert_sweep (cdf inv : list float) :
  cdf_invert cdf inv
  = sweep (fun u => cdf_invert_search cdf (cdf_invert_query (length inv) u))
          (fun u i => cdf_invert_value cdf (cdf_invert_query (length inv) u) i)
          (length inv) inv.
Proof. reflexivity. Qed.

Lemma cdf_invert_length (cdf inv : list float) :
  length (cdf_invert cdf inv) = length inv.
Proof. rewrite cdf_invert_sweep. apply sweep_length. Qed.

(** C8.  For a CDF that passes the assertion of [cdf_invert] (first entry
    0, last entry 1) and never decreases, and an output table of more than
    one entry: for every entry [u] the search finds a bracket [i], the two
    ends of the bracket differ ([cdf[i-1] < cdf[i]]), so the divisor of the
    interpolation is not zero, and the entry receives the interpolated
    value. *)
Theorem cdf_invert_total (cdf inverted_cdf : list float) (u : nat) :
  cdf_invert_assert cdf = true ->
  nondecreasing cdf = true ->
  (1 < length inverted_cdf)%nat ->
  (u < length inverted_cdf)%nat ->
  exists i,
    cdf_invert_search cdf (cdf_invert_query (length inverted_cdf) u) = Some i
    /\ (1 <= i < length cdf)%nat
    /\ Fl.lt (at_ cdf (i - 1)) (at_ cdf i) = true
    /\ Fl.eqb (cdf_invert_divisor cdf i) Fl.zero = false
    /\ at_ (cdf_invert cdf inverted_cdf) u
       = cdf_invert_value cdf (cdf_invert_query (length inverted_cdf) u) i.
Proof.
  intros Hassert Hnd Hm Hu.
  destruct (cdf_entries_unit cdf Hassert Hnd)
    as (Hlen & (x0 & H0 & Hx0) & (x1 & H1 & Hx1) & Hfin).
  destruct (cdf_invert_query_fin u Hm) as (q & Hq & Hrange & _).
  rewrite Hq.
  (* the last entry always matches *)
  destruct (@find_seq_exists (fun i => Fl.ge (at_ cdf i) (Fin q))
              (length cdf - 1) 1 (length cdf - 1)) as [i Hfind];
    [lia | |].
  { rewrite H1. unfold Fl.ge. apply fl_le_fin. lra. }
  exists i. split; [exact Hfind|].
  pose proof (find_seq_some _ _ _ Hfind) as (Hi & Hmatch & Hbefore).
  cbv beta in Hmatch, Hbefore.
  split; [lia|].
  destruct (Hfin i ltac:(lia)) as (y & Hy & _).
  rewrite Hy in Hmatch. unfold Fl.ge in Hmatch. apply fl_le_fin in Hmatch.
  assert (Hprev : exists y', at_ cdf (i - 1) = Fin y' /\ (y' < q)%Q).
  { destruct (Nat.eq_dec i 1) as [->|Hi1].
    - exists x0. split; [exact H0 | lra].
    - destruct (Hfin (i - 1)%nat ltac:(lia)) as (y' & Hy' & _).
      exists y'. split; [exact Hy'|].
      pose proof (Hbefore (i - 1)%nat ltac:(lia)) as Hno.
      rewrite Hy' in Hno. unfold Fl.ge in Hno. simpl in Hno.
      apply Qnot_le_lt. intros Hle. apply Qle_bool_iff in Hle. congruence. }
  destruct Hprev as (y' & Hy' & Hlt).
  split; [rewrite Hy', Hy; apply fl_lt_fin; lra|].
  split.
  - unfold cdf_invert_divisor. rewrite Hy', Hy. simpl.
    destruct (Qeq_bool (y + - y') 0) eqn:E; [|reflexivity].
    apply Qeq_bool_iff in E. lra.
  - unfold at_. rewrite cdf_invert_sweep, sweep_nth by exact Hu.
    apply Nat.ltb_lt in Hu. rewrite Hu, Hq.
    unfold cdf_invert_search. rewrite Hfind. reflexivity.
Qed.

End InvertFacts.

Lemma cdf_invert_total_witness :
  exists i,
    cdf_invert_search [Fin 0; Fin (1 # 2); Fin 1]
                      (cdf_invert_query (length [NaN; NaN; NaN]) 1) = Some i
    /\ (1 <= i < length [Fin 0; Fin (1 # 2); Fin 1])%nat
    /\ Fl.lt (at_ [Fin 0; Fin (1 # 2); Fin 1] (i - 1))
             (at_ [Fin 0; Fin (1 # 2); Fin 1] i) = true
    /\ Fl.eqb (cdf_invert_divisor [Fin 0; Fin (1 # 2); Fin 1] i) Fl.zero
       = false
    /\ at_ (cdf_invert [Fin 0; Fin (1 # 2); Fin 1] [NaN; NaN; NaN]) 1
       = cdf_invert_value [Fin 0; Fin (1 # 2); Fin 1]
           (cdf_invert_query (length [NaN; NaN; NaN]) 1) i.
Proof.
  apply (@cdf_invert_total [Fin 0; Fin (1 # 2); Fin 1] [NaN; NaN; NaN] 1%nat).
  - reflexivity.
  - reflexivity.
  - simpl. lia.
  - simpl. lia.
Defined.

(* ------------------------------------------------------------------ *)
(** ** Inversion of the identity CDF *)

Section IdentityFacts.






End IdentityFacts.


(** The identity CDF of five entries is inverted to [1e-5, 1/4, 1/2, 3/4,
    1 - 1e-5]. *)
Example identity_cdf_5_inverted :
  map (fun x => match x with Fin q => Some (Qred q) | _ => None end)
      (cdf_invert (identity_cdf 5) [NaN; NaN; NaN; NaN; NaN])
  = [Some (1 # 100000); Some (1 # 4); Some (1 # 2); Some (3 # 4);
     Some (99999 # 100000)]%Q.
Proof. vm_compute. reflexivity. Qed.

(* ------------------------------------------------------------------ *)
(** ** Construction of a CDF *)

Section BuildFacts.

Variable curve : float -> float.

Lemma cdf_accumulate_turns (cdf : list float) (k : nat) :
  at_ cdf 0 = Fl.zero -> (k < length cdf)%nat ->
  let acc :=
    fold_left
      (fun cdf u =>
         let x := Fl.div (Fl.of_Z (Z.of_nat u + 1))
                         (Fl.of_Z (Z.of_nat (length cdf) - 1)) in
         vset (u + 1) (Fl.add (at_ cdf u) (curve x)) cdf)
      (seq 0 k) cdf in
  length acc = length cdf
  /\ forall j, (j <= k)%nat ->
       at_ acc j = cdf_running_sum curve (length cdf) j.
Proof.
  intros Hfirst. induction k as [|k IH]; intros Hk acc.
  - split; [reflexivity|]. intros j Hj.
    assert (j = 0%nat) by lia. subst j. exact Hfirst.
  - destruct (IH ltac:(lia)) as [Hlen Hprefix].
    subst acc. rewrite seq_S, fold_left_app. simpl fold_left.
    set (prev := fold_left _ (seq 0 k) cdf) in *.
    split; [rewrite vset_length; exact Hlen|].
    intros j Hj. unfold at_.
    destruct (Nat.eq_dec j (S k)) as [->|Hne].
    + replace (k + 1)%nat with (S k) by lia.
      rewrite nth_vset_same by lia.
      rewrite Hlen. simpl cdf_running_sum.
      rewrite <- (Hprefix k) by lia. reflexivity.
    + rewrite nth_vset_other by lia.
      apply Hprefix. lia.
Qed.

Lemma cdf_accumulate_at (cdf : list float) :
  at_ cdf 0 = Fl.zero -> (1 <= length cdf)%nat ->
  length (cdf_accumulate curve cdf) = length cdf
  /\ forall j, (j < length cdf)%nat ->
       at_ (cdf_accumulate curve cdf) j = cdf_running_sum curve (length cdf) j.
Proof.
  intros Hfirst Hlen.
  destruct (@cdf_accumulate_turns cdf (length cdf - 1) Hfirst ltac:(lia))
    as [Hl Hat].
  split; [exact Hl|]. intros j Hj. apply Hat. lia.
Qed.

Lemma cdf_normalize_turns (cdf : list float) (k : nat) :
  (k <= length cdf)%nat ->
  let acc :=
    fold_left (fun cdf u => vset u (Fl.div (at_ cdf u) (vlast cdf)) cdf)
              (seq 0 k) cdf in
  length acc = length cdf
  /\ forall j, (j < length cdf)%nat ->
       at_ acc j = if (j <? k)%nat then Fl.div (at_ cdf j) (vlast cdf)
                   else at_ cdf j.
Proof.
  induction k as [|k IH]; intros Hk acc.
  - split; reflexivity.
  - destruct (IH ltac:(lia)) as [Hlen Hturn].
    subst acc. rewrite seq_S, fold_left_app. simpl fold_left.
    set (prev := fold_left _ (seq 0 k) cdf) in *.
    split; [rewrite vset_length; exact Hlen|].
    intros j Hj. unfold at_ at 1.
    destruct (Nat.eq_dec j k) as [->|Hne].
    + rewrite nth_vset_same by lia.
      assert (Hlt : (k <? S k)%nat = true) by (apply Nat.ltb_lt; lia).
      rewrite Hlt.
      assert (Hlast : vlast prev = vlast cdf).
      { unfold vlast. rewrite Hlen, Hturn by lia.
        destruct (Nat.ltb_spec (length cdf - 1) k); [lia | reflexivity]. }
      rewrite Hlast, Hturn by lia. rewrite Nat.ltb_irrefl. reflexivity.
    + rewrite nth_vset_other by lia.
      fold (at_ prev j). rewrite Hturn by lia.
      destruct (Nat.ltb_spec j k), (Nat.ltb_spec j (S k)); auto; lia.
Qed.

Lemma cdf_normalize_at (cdf : list float) :
  length (cdf_normalize cdf) = length cdf
  /\ forall j, (j < length cdf)%nat ->
       at_ (cdf_normalize cdf) j = Fl.div (at_ cdf j) (vlast cdf).
Proof.
  destruct (@cdf_normalize_turns cdf (length cdf) ltac:(lia)) as [Hl Hat].
  split; [exact Hl|]. intros j Hj.
  unfold cdf_normalize. rewrite Hat by exact Hj.
  apply Nat.ltb_lt in Hj. rewrite Hj. reflexivity.
Qed.

(** The entries of the result: the running sums divided by the total, and
    1 at the end. *)
Lemma cdf_from_curvemapping_at (cdf : list float) :
  (1 <= length cdf)%nat ->
  length (cdf_from_curvemapping curve cdf) = length cdf
  /\ vlast (cdf_from_curvemapping curve cdf) = Fl.one
  /\ forall j, (j < length cdf - 1)%nat ->
       at_ (cdf_from_curvemapping curve cdf) j
       = Fl.div (cdf_running_sum curve (length cdf) j)
                (cdf_running_sum curve (length cdf) (length cdf - 1)).
Proof.
  intros Hlen. unfold cdf_from_curvemapping.
  set (c0 := vset 0 Fl.zero cdf).
  assert (Hl0 : length c0 = length cdf) by apply vset_length.
  assert (Hfirst : at_ c0 0 = Fl.zero)
    by (unfold at_, c0; apply nth_vset_same; lia).
  destruct (@cdf_accumulate_at c0 Hfirst ltac:(lia)) as [Hl1 Hat1].
  set (c1 := cdf_accumulate curve c0) in *.
  destruct (cdf_normalize_at c1) as [Hl2 Hat2].
  set (c2 := cdf_normalize c1) in *.
  assert (Hl3 : length (vset (length c2 - 1) Fl.one c2) = length cdf)
    by (rewrite vset_length; lia).
  split; [exact Hl3|]. split.
  - unfold vlast, at_. rewrite vset_length.
    apply nth_vset_same. lia.
  - intros j Hj. unfold at_. rewrite nth_vset_other by lia.
    fold (at_ c2 j). rewrite Hat2 by lia.
    unfold vlast. rewrite !Hat1 by lia.
    rewrite Hl1, Hl0. reflexivity.
Qed.

End BuildFacts.

Section NormalizedFacts.

Variable curve : float -> float.

Lemma nondecreasing_pointwise (v : list float) :
  (forall i, (S i < length v)%nat -> Fl.le (at_ v i) (at_ v (S i)) = true) ->
  nondecreasing v = true.
Proof.
  induction v as [|a [|b t] IH]; intros Hstep; try reflexivity.
  change (nondecreasing (a :: b :: t))
    with (Fl.le a b && nondecreasing (b :: t)).
  apply andb_true_iff. split.
  - apply (Hstep 0%nat). simpl. lia.
  - apply IH. intros i Hi. apply (Hstep (S i)). simpl in *. lia.
Qed.




End NormalizedFacts.

(** With an evaluator that is zero at every sampled point the total is zero,
    the normalisation divides 0 by 0, and the first entry is NaN. *)
Lemma cdf_from_curvemapping_zero_total (curve : float -> float)
    (cdf : list float) :
  (2 <= length cdf)%nat ->
  (forall x, exists c, curve x = Fin c /\ (c == 0)%Q) ->
  at_ (cdf_from_curvemapping curve cdf) 0 = NaN.
Proof.
  intros Hlen Hzero.
  destruct (@cdf_from_curvemapping_at curve cdf ltac:(lia)) as (_ & _ & Hat).
  rewrite Hat by lia.
  assert (Hsum : forall k, exists s,
            cdf_running_sum curve (length cdf) k = Fin s /\ (s == 0)%Q).
  { induction k as [|k (s & Hs & Hs0)].
    - exists 0%Q. split; reflexivity.
    - destruct (Hzero (cdf_sample_point (length cdf) k)) as (c & Hc & Hc0).
      exists (s + c)%Q. simpl. rewrite Hs, Hc. split; [reflexivity | lra]. }
  destruct (Hsum (length cdf - 1)%nat) as (s & Hs & Hs0).
  rewrite Hs. simpl.
  apply Qeq_bool_iff in Hs0. rewrite Hs0. reflexivity.
Qed.

(** C2, at the failing input: with the evaluator that is zero everywhere and
    a vector of two entries, [cdf_from_curvemapping] returns [NaN; 1]; the
    first entry is not 0, the result does not pass the assertion of
    [cdf_invert], and it is not nondecreasing. *)
Theorem cdf_from_curvemapping_zero_curve :
  cdf_from_curvemapping (fun _ => Fl.zero) [Fl.zero; Fl.zero] = [NaN; Fl.one]
  /\ Fl.eqb (at_ (cdf_from_curvemapping (fun _ => Fl.zero) [Fl.zero; Fl.zero]) 0)
            Fl.zero = false
  /\ cdf_invert_assert
       (cdf_from_curvemapping (fun _ => Fl.zero) [Fl.zero; Fl.zero]) = false
  /\ nondecreasing
       (cdf_from_curvemapping (fun _ => Fl.zero) [Fl.zero; Fl.zero]) = false.
Proof. vm_compute. repeat split. Qed.

(* ================================================================== *)
(** * Further properties of the code *)

(* ------------------------------------------------------------------ *)
(** ** [end_sync] *)

Section EndSyncFacts.

Variable hdr : Header.

(** After [end_sync] the interactive flag is on exactly when the context is
    a viewport, the viewport-relative counter read by [end_sync] is below
    the threshold, temporal reprojection is enabled and no image render runs
    in the viewport; outside a viewport the flag is left as it was. *)
Lemma end_sync_interactive_flag (inst : Inst) (s : Sampling) :
  interactive_mode_ (end_sync hdr inst s)
  = if is_viewport inst
    then (end_sync_viewport_counter s <? interactive_mode_threshold hdr)
         && flag_taa_reprojection (inst_scene inst)
         && negb (is_viewport_image_render inst)
    else interactive_mode_ s.
Proof.
  unfold end_sync, end_sync_viewport_counter.
  destruct (reset_ s), (is_viewport inst),
    (flag_taa_reprojection (inst_scene inst)),
    (is_viewport_image_render inst); simpl;
    try reflexivity;
    repeat match goal with
           | |- context [?a <? ?b] => destruct (a <? b); simpl
           end; reflexivity.
Qed.

Hypothesis cap_fits_int : 0 < interactive_sample_max_ hdr < 2 ^ 31.

(** X1.  While the interactive flag is on after [end_sync], the absolute
    sample index is inside [0, cap]: it has been reduced modulo the cap, or
    set to the cap. *)
Theorem end_sync_interactive_bound (inst : Inst) (s : Sampling) :
  is_viewport inst = true ->
  interactive_mode_ (end_sync hdr inst s) = true ->
  0 <= sample_ (end_sync hdr inst s) <= interactive_sample_max_ hdr
  /\ (end_sync_viewport_counter s < interactive_sample_max_ hdr ->
      sample_ (end_sync hdr inst s)
      = sample_ s mod interactive_sample_max_ hdr).
Proof.
  intros Hview.
  assert (Hint : to_int (interactive_sample_max_ hdr)
                 = interactive_sample_max_ hdr)
    by (apply to_int_small; lia).
  pose proof (Z.mod_pos_bound (sample_ s) (interactive_sample_max_ hdr)
                ltac:(lia)) as Hmod.
  unfold end_sync, end_sync_viewport_counter. rewrite Hview, Hint.
  destruct (reset_ s); simpl;
    destruct (negb (flag_taa_reprojection (inst_scene inst))
              || is_viewport_image_render inst); simpl;
    try discriminate;
    match goal with
    | |- context [?a <? interactive_mode_threshold hdr] =>
        destruct (a <? interactive_mode_threshold hdr); simpl;
        try discriminate
    end;
    match goal with
    | |- context [?a <? interactive_sample_max_ hdr] =>
        destruct (Z.ltb_spec a (interactive_sample_max_ hdr)); simpl
    end;
    intros _; rewrite ?wrap64_small by lia; split; try lia;
    intros; try lia; reflexivity.
Qed.

(** X2.  [end_sync] is idempotent: a second call in the same context changes
    nothing. *)
Theorem end_sync_idempotent (inst : Inst) (s : Sampling) :
  end_sync hdr inst (end_sync hdr inst s) = end_sync hdr inst s.
Proof.
  assert (Hint : to_int (interactive_sample_max_ hdr)
                 = interactive_sample_max_ hdr)
    by (apply to_int_small; lia).
  destruct s as [sa sc rc dc mb vs re im da cl].
  unfold end_sync. rewrite Hint.
  destruct (is_viewport inst); [|destruct re; reflexivity].
  destruct (negb (flag_taa_reprojection (inst_scene inst))
            || is_viewport_image_render inst) eqn:Hdis.
  - destruct re; reflexivity.
  - pose proof (Z.mod_pos_bound sa (interactive_sample_max_ hdr) ltac:(lia))
      as Hmod.
    assert (Hwrap : wrap64 (sa mod interactive_sample_max_ hdr)
                    = sa mod interactive_sample_max_ hdr)
      by (apply wrap64_small; lia).
    destruct re; sampling_norm;
      repeat match goal with
             | |- context [if ?a <? ?b then _ else _] =>
                 destruct (Z.ltb_spec a b); sampling_norm
             end;
      try reflexivity; try lia;
      repeat (rewrite Hwrap || rewrite Z.mod_mod by lia); reflexivity.
Qed.

End EndSyncFacts.

Lemma end_sync_interactive_bound_witness :
  0 <= sample_ (end_sync hdr_example inst_viewport (set_sample 70 fresh))
    <= interactive_sample_max_ hdr_example
  /\ (end_sync_viewport_counter (set_sample 70 fresh)
      < interactive_sample_max_ hdr_example ->
      sample_ (end_sync hdr_example inst_viewport (set_sample 70 fresh))
      = sample_ (set_sample 70 fresh) mod interactive_sample_max_ hdr_example).
Proof.
  apply (@end_sync_interactive_bound hdr_example ltac:(simpl; lia)
           inst_viewport (set_sample 70 fresh)).
  - reflexivity.
  - reflexivity.
Defined.

Lemma end_sync_idempotent_witness :
  end_sync hdr_example inst_viewport
    (end_sync hdr_example inst_viewport (set_sample 70 fresh))
  = end_sync hdr_example inst_viewport (set_sample 70 fresh).
Proof.
  apply (@end_sync_idempotent hdr_example ltac:(simpl; lia)).
Defined.

(* ------------------------------------------------------------------ *)
(** ** [step] *)

Section StepFacts.

Variable hdr : Header.

(** X3.  The first sample lies on the origin: at [sample_ = 0] the shifted
    slots of the filter, of the shadow offsets and of the volume are all 0,
    for every header, context, flag and previous vector (the WORKAROUND
    comments of [step]). *)
Theorem step_first_sample_origin
    (inst : Inst) (s : Sampling) (d : eSamplingDimension) :
  step_divisions_defined hdr inst s ->
  sample_ s = 0 ->
  In d [SAMPLING_FILTER_U; SAMPLING_FILTER_V;
        SAMPLING_SHADOW_I; SAMPLING_SHADOW_J; SAMPLING_SHADOW_K;
        SAMPLING_VOLUME_U; SAMPLING_VOLUME_V; SAMPLING_VOLUME_W] ->
  Fl.eqb (data_ (step hdr inst s) d) Fl.zero = true.
Proof.
  intros _ Hzero Hd. unfold step.
  cbn [data_ set_reset set_sample set_viewport_sample set_data].
  unfold step_dimensions, step_dimensions_with, interactive_mode.
  rewrite Hzero.
  assert (Hdiv : forall m, 0 / m = 0) by (intros m; reflexivity).
  assert (Hmod : forall m, 0 mod m = 0) by (intros m; reflexivity).
  rewrite Hdiv, !Hmod.
  assert (Hsame : forall b : bool, (if b then 0 else 0) = 0)
    by (intros []; reflexivity).
  rewrite !Hsame.
  simpl in Hd.
  repeat (destruct Hd as [<-|Hd]; [vm_compute; reflexivity|]).
  contradiction.
Qed.

(** X4.  The filter draw is held for the pixels that are being up-scaled:
    with a film scaling factor [f] whose square fits an [int], the [f * f] consecutive sample indices
    [k * (f * f) + j], [0 <= j < f * f], all give the five slots of the first
    draw the values of the index [k * (f * f)]. *)
Theorem step_filter_held_when_upscaling
    (inst : Inst) (s : Sampling) (k j : Z) (d : eSamplingDimension) :
  step_divisions_defined hdr inst s ->
  0 < film_scaling_factor inst ->
  film_scaling_factor inst * film_scaling_factor inst < 2 ^ 31 ->
  0 <= k ->
  0 <= j < film_scaling_factor inst * film_scaling_factor inst ->
  k * (film_scaling_factor inst * film_scaling_factor inst) + j < 2 ^ 64 ->
  In d [SAMPLING_FILTER_U; SAMPLING_FILTER_V; SAMPLING_TIME;
        SAMPLING_CLOSURE; SAMPLING_RAYTRACE_X] ->
  data_ (step hdr inst
           (set_sample
              (k * (film_scaling_factor inst * film_scaling_factor inst) + j)
              s)) d
  = data_ (step hdr inst
             (set_sample
                (k * (film_scaling_factor inst * film_scaling_factor inst))
                s)) d.
Proof.
  intros _ Hf Hff Hk Hj _ Hd.
  set (f := film_scaling_factor inst) in *.
  assert (Hsq : wrap64 (square_i f) = f * f).
  { unfold square_i. rewrite to_int_small by nia.
    apply wrap64_small. change (2 ^ 64) with (2 ^ 31 * 2 ^ 33). nia. }
  assert (Hquot : (k * (f * f) + j) / (f * f) = k * (f * f) / (f * f)).
  { rewrite Z.div_add_l by nia. rewrite Z.div_small by lia.
    rewrite Z.div_mul by nia. lia. }
  unfold step.
  cbn [data_ set_reset set_sample set_viewport_sample set_data].
  unfold step_dimensions, step_dimensions_with, BLI_halton_2d, BLI_halton_3d,
    interactive_mode.
  cbn [fst snd sample_ set_sample interactive_mode_].
  fold f. rewrite Hsq, Hquot.
  simpl in Hd.
  repeat (destruct Hd as [<-|Hd];
          [cbn [dim_set eSamplingDimension_beq]; reflexivity|]).
  contradiction.
Qed.

Lemma mod_add_period (a n m : Z) : (a + n * m) mod m = a mod m.
Proof.
  destruct (Z.eq_dec m 0) as [->|Hm].
  - rewrite Z.mul_0_r, Z.add_0_r. reflexivity.
  - apply Z.mod_add. exact Hm.
Qed.

(** X5.  In interactive mode the volume slots are periodic in the sample
    index with period [interactive_sample_volume_], and the shadow and ray
    tracing slots of the leaped draw with period
    [interactive_sample_raytrace_]. *)
Theorem step_interactive_periods
    (inst : Inst) (s : Sampling) (n : Z) (d : eSamplingDimension) :
  step_divisions_defined hdr inst s ->
  interactive_mode_ s = true ->
  0 <= sample_ s ->
  0 <= n ->
  (In d [SAMPLING_VOLUME_U; SAMPLING_VOLUME_V; SAMPLING_VOLUME_W] ->
   sample_ s + n * interactive_sample_volume_ hdr < 2 ^ 64 ->
   data_ (step hdr inst
            (set_sample (sample_ s + n * interactive_sample_volume_ hdr) s)) d
   = data_ (step hdr inst s) d)
  /\ (In d [SAMPLING_SHADOW_U; SAMPLING_SHADOW_V; SAMPLING_SHADOW_W;
            SAMPLING_RAYTRACE_U; SAMPLING_RAYTRACE_V; SAMPLING_RAYTRACE_W] ->
      sample_ s + n * interactive_sample_raytrace_ hdr < 2 ^ 64 ->
      data_ (step hdr inst
               (set_sample (sample_ s + n * interactive_sample_raytrace_ hdr)
                           s)) d
      = data_ (step hdr inst s) d).
Proof.
  intros _ Hflag _ _. unfold step.
  cbn [data_ set_reset set_sample set_viewport_sample set_data].
  unfold step_dimensions, step_dimensions_with, BLI_halton_2d, BLI_halton_3d,
    interactive_mode.
  cbn [fst snd sample_ set_sample interactive_mode_].
  rewrite Hflag, !mod_add_period.
  split; intros Hd _; simpl in Hd;
    repeat (destruct Hd as [<-|Hd];
            [cbn [dim_set eSamplingDimension_beq]; reflexivity|]);
    contradiction.
Qed.

End StepFacts.

Lemma step_first_sample_origin_witness :
  Fl.eqb (data_ (step hdr_example inst_viewport fresh) SAMPLING_VOLUME_W)
         Fl.zero = true.
Proof.
  apply (@step_first_sample_origin hdr_example inst_viewport fresh
           SAMPLING_VOLUME_W).
  - split; [vm_compute; discriminate|]. intros _. vm_compute.
    repeat split; discriminate.
  - reflexivity.
  - simpl. tauto.
Defined.

Lemma step_filter_held_when_upscaling_witness :
  data_ (step hdr_example
           {| is_viewport := true; is_image_render := false;
              is_viewport_image_render := false; is_baking := false;
              view_layer_samples := 0; inst_scene := scene_example;
              film_scaling_factor := 2; world_sun_threshold := Fl.zero |}
           (set_sample (3 * (2 * 2) + 1) fresh)) SAMPLING_FILTER_U
  = data_ (step hdr_example
             {| is_viewport := true; is_image_render := false;
                is_viewport_image_render := false; is_baking := false;
                view_layer_samples := 0; inst_scene := scene_example;
                film_scaling_factor := 2; world_sun_threshold := Fl.zero |}
             (set_sample (3 * (2 * 2)) fresh)) SAMPLING_FILTER_U.
Proof.
  apply (@step_filter_held_when_upscaling hdr_example
           {| is_viewport := true; is_image_render := false;
              is_viewport_image_render := false; is_baking := false;
              view_layer_samples := 0; inst_scene := scene_example;
              film_scaling_factor := 2; world_sun_threshold := Fl.zero |}
           fresh 3 1 SAMPLING_FILTER_U).
  - split; [vm_compute; discriminate|]. intros _. vm_compute.
    repeat split; discriminate.
  - simpl. lia.
  - simpl. lia.
  - lia.
  - simpl. lia.
  - simpl. lia.
  - simpl. tauto.
Defined.

Lemma step_interactive_periods_witness :
  data_ (step hdr_example inst_viewport
           (set_sample
              (sample_ (set_interactive_mode true (set_sample 5 fresh))
               + 2 * interactive_sample_volume_ hdr_example)
              (set_interactive_mode true (set_sample 5 fresh))))
        SAMPLING_VOLUME_U
  = data_ (step hdr_example inst_viewport
             (set_interactive_mode true (set_sample 5 fresh)))
          SAMPLING_VOLUME_U.
Proof.
  refine (proj1 (@step_interactive_periods hdr_example inst_viewport
                   (set_interactive_mode true (set_sample 5 fresh)) 2
                   SAMPLING_VOLUME_U _ _ _ _) _ _).
  - split; [vm_compute; discriminate|]. intros _. vm_compute.
    repeat split; discriminate.
  - reflexivity.
  - simpl. lia.
  - lia.
  - simpl. tauto.
  - simpl. lia.
Defined.

(* ------------------------------------------------------------------ *)
(** ** [end_sync] followed by [step] *)

Section InteractiveStep.

Variable hdr : Header.

Hypothesis cap_fits_int : 0 < interactive_sample_max_ hdr < 2 ^ 31.

Lemma end_sync_interactive_range (inst : Inst) (s : Sampling) :
  is_viewport inst = true ->
  interactive_mode_ (end_sync hdr inst s) = true ->
  0 <= sample_ (end_sync hdr inst s) <= interactive_sample_max_ hdr.
Proof.
  intros Hview.
  assert (Hint : to_int (interactive_sample_max_ hdr)
                 = interactive_sample_max_ hdr)
    by (apply to_int_small; lia).
  pose proof (Z.mod_pos_bound (sample_ s) (interactive_sample_max_ hdr)
                ltac:(lia)) as Hmod.
  unfold end_sync. rewrite Hview, Hint.
  destruct (reset_ s); simpl;
    destruct (negb (flag_taa_reprojection (inst_scene inst))
              || is_viewport_image_render inst); simpl;
    try discriminate;
    match goal with
    | |- context [?a <? interactive_mode_threshold hdr] =>
        destruct (a <? interactive_mode_threshold hdr); simpl;
        try discriminate
    end;
    match goal with
    | |- context [?a <? interactive_sample_max_ hdr] =>
        destruct (Z.ltb_spec a (interactive_sample_max_ hdr)); simpl
    end;
    intros _; rewrite ?wrap64_small by lia; lia.
Qed.

(** X6.  A [step] that follows an [end_sync] which left the sampler in
    interactive mode passes both assertions on every slot, as long as the
    interactive cap [c] satisfies [11 * (13 * c + 1) < 2^25]: in interactive
    mode the sample index never leaves the range in which the conversion to
    [float] stays below 1. *)
Theorem interactive_step_passes_asserts
    (inst inst' : Inst) (s : Sampling) (d : eSamplingDimension) :
  is_viewport inst = true ->
  interactive_mode_ (end_sync hdr inst s) = true ->
  step_divisions_defined hdr inst' (end_sync hdr inst s) ->
  0 < interactive_sample_aa_ hdr ->
  0 < interactive_sample_raytrace_ hdr ->
  0 < interactive_sample_volume_ hdr ->
  11 * (13 * interactive_sample_max_ hdr + 1) < 2 ^ 25 ->
  dimension_asserts (data_ (step hdr inst' (end_sync hdr inst s)) d) = true.
Proof.
  intros Hview Hflag _ Haa Hrt Hvol Hcap.
  pose proof (end_sync_interactive_range inst s Hview Hflag) as Hrange.
  apply step_dimensions_unit_small_index; lia.
Qed.

End InteractiveStep.

Lemma interactive_step_passes_asserts_witness :
  dimension_asserts
    (data_ (step hdr_example inst_viewport
              (end_sync hdr_example inst_viewport (set_sample 70 fresh)))
           SAMPLING_SHADOW_X) = true.
Proof.
  apply (@interactive_step_passes_asserts hdr_example ltac:(simpl; lia)
           inst_viewport inst_viewport (set_sample 70 fresh)
           SAMPLING_SHADOW_X).
  - reflexivity.
  - reflexivity.
  - split; [vm_compute; discriminate|]. intros _. vm_compute.
    repeat split; discriminate.
  - simpl. lia.
  - simpl. lia.
  - simpl. lia.
  - simpl. lia.
Defined.

(* ------------------------------------------------------------------ *)
(** ** Slots that always pass the assertions *)

Section ShiftedSlots.

Variable hdr : Header.

(** X7.  The eight shifted slots and the three unused slots pass both
    assertions of [step] in every state, whatever the sample index, the
    header and the context are: [fractf] is applied after the conversion to
    [float]. *)
Theorem step_shifted_slots_pass_asserts
    (inst : Inst) (s : Sampling) (d : eSamplingDimension) :
  step_divisions_defined hdr inst s ->
  In d [SAMPLING_FILTER_U; SAMPLING_FILTER_V;
        SAMPLING_SHADOW_I; SAMPLING_SHADOW_J; SAMPLING_SHADOW_K;
        SAMPLING_VOLUME_U; SAMPLING_VOLUME_V; SAMPLING_VOLUME_W;
        SAMPLING_UNUSED_0; SAMPLING_UNUSED_1; SAMPLING_UNUSED_2] ->
  dimension_asserts (data_ (step hdr inst s) d) = true.
Proof.
  intros _ Hd. apply in_unit_asserts. apply step_fraction_slots_unit.
  simpl in Hd.
  repeat (destruct Hd as [<-|Hd]; [reflexivity|]).
  contradiction.
Qed.

End ShiftedSlots.

Lemma step_shifted_slots_pass_asserts_witness :
  dimension_asserts
    (data_ (step hdr_example inst_viewport (set_sample 67108862 fresh))
           SAMPLING_FILTER_U) = true.
Proof.
  apply (@step_shifted_slots_pass_asserts hdr_example inst_viewport
           (set_sample 67108862 fresh) SAMPLING_FILTER_U).
  - split; [vm_compute; discriminate|]. intros _. vm_compute.
    repeat split; discriminate.
  - simpl. tauto.
Defined.

(* ------------------------------------------------------------------ *)
(** ** Sessions *)

Section SessionFacts.

Variable hdr : Header.

Lemma run_app (cs cs' : list call) (s : Sampling) :
  run hdr (cs ++ cs') s = run hdr cs' (run hdr cs s).
Proof. unfold run. apply fold_left_app. Qed.

Lemma step_count_nonneg (cs : list call) : 0 <= step_count cs.
Proof.
  induction cs as [|c cs IH]; [simpl; lia|].
  destruct c; cbn [step_count]; lia.
Qed.

Lemma step_count_app (cs cs' : list call) :
  step_count (cs ++ cs') = step_count cs + step_count cs'.
Proof.
  induction cs as [|c cs IH]; [simpl; lia|].
  destruct c; cbn [step_count app]; lia.
Qed.

Lemma run_call_reset_flag (c : call) (s : Sampling) :
  reset_ (run_call hdr c s)
  = match c with
    | CallReset _ => true
    | CallStep _ => false
    | _ => reset_ s
    end.
Proof.
  destruct c as [inst scene|inst n|inst|inst|inst]; cbn [run_call].
  - apply (init_counters hdr inst scene s).
  - apply (init_probe_counters n s).
  - apply (end_sync_viewport_sample hdr inst s).
  - reflexivity.
  - reflexivity.
Qed.

(** X8.  [is_reset] answers whether a reset request is still pending: at
    the end of a session it is true exactly when some [reset] of the session
    has no [step] after it, or the session started with a pending request
    and contains no [step] at all. *)
Theorem is_reset_pending_request (cs : list call) (s : Sampling) :
  is_reset (run hdr cs s) = true
  <-> (exists pre inst post,
         cs = pre ++ CallReset inst :: post /\ step_count post = 0)
      \/ (reset_ s = true /\ step_count cs = 0).
Proof.
  unfold is_reset.
  induction cs as [|c cs IH] using rev_ind.
  - simpl. split.
    + intros Hr. right. split; [exact Hr | reflexivity].
    + intros [(pre & inst & post & Heq & _)|[Hr _]]; [|exact Hr].
      destruct pre; discriminate.
  - rewrite run_app. cbn [run fold_left]. rewrite run_call_reset_flag.
    assert (Hlast : forall pre inst post,
               cs ++ [c] = pre ++ CallReset inst :: post ->
               (post = [] /\ c = CallReset inst /\ cs = pre)
               \/ exists post', post = post' ++ [c]
                                /\ cs = pre ++ CallReset inst :: post').
    { intros pre inst post Heq.
      destruct (@exists_last _ (CallReset inst :: post) ltac:(discriminate))
        as (l & x & Hlx).
      destruct post as [|p post].
      - left. apply app_inj_tail in Heq as [-> ->]. auto.
      - right.
        destruct (@exists_last _ (p :: post) ltac:(discriminate))
          as (l' & x' & Hlx').
        rewrite Hlx' in Heq.
        change (pre ++ CallReset inst :: l' ++ [x'])
          with (pre ++ (CallReset inst :: l') ++ [x']) in Heq.
        rewrite app_assoc in Heq.
        apply app_inj_tail in Heq as [-> ->].
        exists l'. split; [exact Hlx' | reflexivity]. }
    rewrite step_count_app.
    pose proof (step_count_nonneg cs) as Hcs.
    destruct c as [inst scene|inst n|inst|inst|inst]; cbn [step_count].
    + rewrite IH. split.
      * intros [(pre & i & post & -> & Hz)|[Hr Hz]].
        -- left. exists pre, i, (post ++ [CallInit inst scene]).
           split; [now rewrite <- app_assoc|].
           rewrite step_count_app. simpl. lia.
        -- right. split; [exact Hr | lia].
      * intros [(pre & i & post & Heq & Hz)|[Hr Hz]].
        -- destruct (Hlast _ _ _ Heq) as [(_ & Hc & _)|(post' & -> & ->)];
             [discriminate|].
           left. exists pre, i, post'. split; [reflexivity|].
           rewrite step_count_app in Hz.
           pose proof (step_count_nonneg post'). simpl in Hz. lia.
        -- right. split; [exact Hr | lia].
    + rewrite IH. split.
      * intros [(pre & i & post & -> & Hz)|[Hr Hz]].
        -- left. exists pre, i, (post ++ [CallInitProbe inst n]).
           split; [now rewrite <- app_assoc|].
           rewrite step_count_app. simpl. lia.
        -- right. split; [exact Hr | lia].
      * intros [(pre & i & post & Heq & Hz)|[Hr Hz]].
        -- destruct (Hlast _ _ _ Heq) as [(_ & Hc & _)|(post' & -> & ->)];
             [discriminate|].
           left. exists pre, i, post'. split; [reflexivity|].
           rewrite step_count_app in Hz.
           pose proof (step_count_nonneg post'). simpl in Hz. lia.
        -- right. split; [exact Hr | lia].
    + rewrite IH. split.
      * intros [(pre & i & post & -> & Hz)|[Hr Hz]].
        -- left. exists pre, i, (post ++ [CallEndSync inst]).
           split; [now rewrite <- app_assoc|].
           rewrite step_count_app. simpl. lia.
        -- right. split; [exact Hr | lia].
      * intros [(pre & i & post & Heq & Hz)|[Hr Hz]].
        -- destruct (Hlast _ _ _ Heq) as [(_ & Hc & _)|(post' & -> & ->)];
             [discriminate|].
           left. exists pre, i, post'. split; [reflexivity|].
           rewrite step_count_app in Hz.
           pose proof (step_count_nonneg post'). simpl in Hz. lia.
        -- right. split; [exact Hr | lia].
    + split; [discriminate|].
      intros [(pre & i & post & Heq & Hz)|[Hr Hz]]; [|lia].
      destruct (Hlast _ _ _ Heq) as [(_ & Hc & _)|(post' & -> & _)];
        [discriminate|].
      rewrite step_count_app in Hz.
      pose proof (step_count_nonneg post'). simpl in Hz. lia.
    + split; [|reflexivity]. intros _. left.
      exists cs, inst, []. split; reflexivity.
Qed.



Lemma run_call_interactive_flag (c : call) (s : Sampling) :
  interactive_mode_ (run_call hdr c s)
  = match c with
    | CallEndSync inst => interactive_mode_ (end_sync hdr inst s)
    | _ => interactive_mode_ s
    end.
Proof.
  destruct c as [inst scene|inst n|inst|inst|inst]; cbn [run_call];
    try reflexivity.
  unfold init. destruct (init_dof hdr scene _) as [[ring dsc] sc].
  reflexivity.
Qed.

(** X9.  Interactive mode belongs to the viewport: in a session whose
    [end_sync] calls are all made outside a viewport (a final render, a
    light probe bake), the interactive flag is never set, so [step] never
    reduces a sample index modulo an interactive sample count. *)
Theorem interactive_mode_viewport_only (cs : list call) (s : Sampling) :
  interactive_mode s = false ->
  (forall inst, In (CallEndSync inst) cs -> is_viewport inst = false) ->
  interactive_mode (run hdr cs s) = false.
Proof.
  unfold interactive_mode. revert s.
  induction cs as [|c cs IH]; intros s Hs Hcs; [exact Hs|].
  change (run hdr (c :: cs) s) with (run hdr cs (run_call hdr c s)).
  apply IH.
  - rewrite run_call_interactive_flag.
    destruct c as [inst scene|inst n|inst|inst|inst]; try exact Hs.
    rewrite end_sync_interactive_flag.
    rewrite (Hcs inst (or_introl eq_refl)). exact Hs.
  - intros inst Hin. apply Hcs. right. exact Hin.
Qed.

Hypothesis cap_fits_int : 0 < interactive_sample_max_ hdr < 2 ^ 31.
Hypothesis threshold_below_cap :
  interactive_mode_threshold hdr <= interactive_sample_max_ hdr.

Lemma run_counts_steps (cs : list call) : forall s,
  no_reset cs = true -> no_probe cs = true ->
  in_step (sample_ s) s ->
  sample_ s + step_count cs < 2 ^ 64 ->
  in_step (sample_ s + step_count cs) (run hdr cs s)
  /\ sample_ (run hdr cs s) = sample_ s + step_count cs.
Proof.
  induction cs as [|c cs IH]; intros s Hreset Hprobe Hs Hn.
  - simpl in *. rewrite Z.add_0_r. auto.
  - simpl in Hreset, Hprobe.
    apply andb_true_iff in Hreset as [Hc1 Hreset].
    apply andb_true_iff in Hprobe as [Hc2 Hprobe].
    apply negb_true_iff in Hc1. apply negb_true_iff in Hc2.
    pose proof (step_count_nonneg cs) as Hcs.
    pose proof Hs as (Heq & Hr & Hrange).
    assert (Hnext : in_step (sample_ (run_call hdr c s)) (run_call hdr c s)
                    /\ sample_ (run_call hdr c s) + step_count cs
                       = sample_ s + step_count (c :: cs)).
    { destruct c as [inst scene|inst k|inst|inst|inst];
        cbn [run_call is_reset_call is_probe_call step_count] in *;
        try discriminate.
      - destruct (init_counters hdr inst scene s) as (Hsa & Hv & Hre).
        unfold in_step. rewrite Hsa, Hv, Hre. repeat split; auto; lia.
      - pose proof (@end_sync_in_step hdr cap_fits_int threshold_below_cap
                      inst _ _ Hs) as Hsa.
        destruct (end_sync_viewport_sample hdr inst s) as (Hv & Hre).
        rewrite Hr in Hv.
        unfold in_step. rewrite Hsa, Hv, Hre. repeat split; auto; lia.
      - unfold in_step, step.
        cbn [sample_ viewport_sample_ reset_ set_reset set_sample
             set_viewport_sample set_data].
        rewrite <- Heq. rewrite wrap64_small by lia.
        repeat split; auto; lia. }
    destruct Hnext as [Hin Hsum].
    change (run hdr (c :: cs) s) with (run hdr cs (run_call hdr c s)).
    rewrite <- Hsum. apply IH; auto. lia.
Qed.

(** X10.  In a session that starts from a freshly constructed sampler and
    holds neither a reset request nor an initialisation from a light probe,
    the absolute sample index and the viewport-relative counter both equal
    the number of [step] calls made so far: [init] and [end_sync] leave them
    alone (the interactive threshold does not exceed the interactive cap). *)
Theorem session_counts_steps (cs : list call) :
  no_reset cs = true ->
  no_probe cs = true ->
  step_count cs < 2 ^ 64 ->
  sample_ (run hdr cs fresh) = step_count cs
  /\ viewport_sample_ (run hdr cs fresh) = step_count cs.
Proof.
  intros Hreset Hprobe Hn.
  assert (Hfresh : in_step (sample_ fresh) fresh)
    by (unfold in_step; simpl; lia).
  destruct (@run_counts_steps cs fresh Hreset Hprobe Hfresh) as [Hin Heq].
  - simpl. lia.
  - simpl in Heq. split; [exact Heq|].
    destruct Hin as (Hsame & _). rewrite <- Hsame. exact Heq.
Qed.

End SessionFacts.

Lemma is_reset_pending_request_witness :
  is_reset (run hdr_example
              [CallStep inst_viewport; CallReset inst_viewport;
               CallEndSync inst_viewport] fresh) = true.
Proof.
  apply (proj2 (@is_reset_pending_request hdr_example
                  [CallStep inst_viewport; CallReset inst_viewport;
                   CallEndSync inst_viewport] fresh)).
  left. exists [CallStep inst_viewport], inst_viewport,
          [CallEndSync inst_viewport].
  split; reflexivity.
Defined.

Lemma interactive_mode_viewport_only_witness :
  interactive_mode
    (run hdr_example
       [CallInit inst_render scene_example; CallEndSync inst_render;
        CallStep inst_render; CallEndSync inst_render] fresh) = false.
Proof.
  apply (@interactive_mode_viewport_only hdr_example
           [CallInit inst_render scene_example; CallEndSync inst_render;
            CallStep inst_render; CallEndSync inst_render] fresh).
  - reflexivity.
  - intros inst [Hin|[Hin|[Hin|[Hin|[]]]]]; try discriminate;
      injection Hin as <-; reflexivity.
Defined.

Lemma session_counts_steps_witness :
  sample_ (run hdr_example
             [CallInit inst_viewport scene_example; CallEndSync inst_viewport;
              CallStep inst_viewport; CallEndSync inst_viewport;
              CallStep inst_viewport] fresh) = 2
  /\ viewport_sample_
       (run hdr_example
          [CallInit inst_viewport scene_example; CallEndSync inst_viewport;
           CallStep inst_viewport; CallEndSync inst_viewport;
           CallStep inst_viewport] fresh) = 2.
Proof.
  apply (@session_counts_steps hdr_example ltac:(simpl; lia)
           ltac:(simpl; lia)
           [CallInit inst_viewport scene_example; CallEndSync inst_viewport;
            CallStep inst_viewport; CallEndSync inst_viewport;
            CallStep inst_viewport]).
  - reflexivity.
  - reflexivity.
  - simpl. lia.
Defined.

(* ------------------------------------------------------------------ *)
(** ** A reset request and the absolute sample index *)

Section ResetRestart.

Variable hdr : Header.


End ResetRestart.


(* ------------------------------------------------------------------ *)
(** ** [init] on a scene *)

Section InitFacts.

Variable hdr : Header.

Lemma clamp_value_load_positive (value : float) :
  Fl.gt (clamp_value_load value) Fl.zero = true.
Proof.
  unfold clamp_value_load.
  destruct (Fl.gt value Fl.zero) eqn:Hgt; [exact Hgt|].
  vm_compute. reflexivity.
Qed.

(** X12.  After [init] the five clamp thresholds are strictly positive,
    whatever the scene and the world hold: a value that is zero, negative
    or not a number is replaced by the sentinel. *)
Theorem init_clamp_thresholds_positive
    (inst : Inst) (scene : Scene) (s : Sampling) :
  Fl.gt (sun_threshold (clamp_data_ (init hdr inst scene s))) Fl.zero = true
  /\ Fl.gt (surface_direct (clamp_data_ (init hdr inst scene s))) Fl.zero
     = true
  /\ Fl.gt (surface_indirect (clamp_data_ (init hdr inst scene s))) Fl.zero
     = true
  /\ Fl.gt (volume_direct (clamp_data_ (init hdr inst scene s))) Fl.zero
     = true
  /\ Fl.gt (volume_indirect (clamp_data_ (init hdr inst scene s))) Fl.zero
     = true.
Proof.
  unfold init. destruct (init_dof hdr scene _) as [[ring dsc] sc].
  cbn [clamp_data_ set_clamp_data sun_threshold surface_direct
       surface_indirect volume_direct volume_indirect].
  repeat split; apply clamp_value_load_positive.
Qed.

(** X13.  The target sample count at its edges.  A final image render gets
    at least one sample, and exactly one when the scene asks for none; a
    viewport that asks for no sample gets the infinite sample count; a
    viewport with a pixel size [p > 1] gets at least [p * p] samples. *)
Theorem init_target_sample_count_edges (inst : Inst) (scene : Scene) :
  (is_viewport inst = false -> is_image_render inst = true ->
   1 <= init_target_sample_count hdr inst scene
   /\ (view_layer_samples inst <= 0 -> taa_render_samples scene = 0 ->
       init_target_sample_count hdr inst scene = 1))
  /\ (is_viewport inst = true -> is_image_render inst = false ->
      taa_samples scene = 0 ->
      preview_pixel_size (inst_scene inst) <= 1 ->
      init_target_sample_count hdr inst scene = infinite_sample_count_ hdr)
  /\ (is_viewport inst = true ->
      0 <= taa_samples scene < 2 ^ 31 ->
      0 <= infinite_sample_count_ hdr < 2 ^ 31 ->
      1 < preview_pixel_size (inst_scene inst) ->
      preview_pixel_size (inst_scene inst)
      * preview_pixel_size (inst_scene inst) < 2 ^ 31 ->
      preview_pixel_size (inst_scene inst)
      * preview_pixel_size (inst_scene inst)
      <= init_target_sample_count hdr inst scene).
Proof.
  unfold init_target_sample_count.
  split; [|split].
  - intros Hview Himg. rewrite Hview, Himg.
    set (n := wrap64 _).
    pose proof (Z.le_max_l 1 n) as Hmax.
    destruct (Z.eqb_spec (Z.max 1 n) 0) as [Hz|Hnz]; [lia|].
    split; [exact Hmax|].
    intros Hlayer Hscene. unfold n.
    destruct (Z.ltb_spec 0 (view_layer_samples inst)); [lia|].
    rewrite Hscene. reflexivity.
  - intros Hview Himg Hzero Hpix. rewrite Hview, Himg, Hzero.
    change (wrap64 0 =? 0) with true. cbv iota.
    destruct (Z.ltb_spec 1 (preview_pixel_size (inst_scene inst)));
      [lia | reflexivity].
  - intros Hview Hsamples Hinf Hpix Hsq. rewrite Hview.
    apply Z.ltb_lt in Hpix as Hpix'. rewrite Hpix'.
    set (p := preview_pixel_size (inst_scene inst)) in *.
    change (2 ^ 31) with 2147483648 in *.
    assert (H64 : 2 ^ 64 = 18446744073709551616) by reflexivity.
    rewrite (@wrap64_small (taa_samples scene)) by lia.
    set (sc := if is_image_render inst
               then Z.max 1 (taa_samples scene) else taa_samples scene).
    assert (Hsc : 0 <= sc < 2147483648)
      by (unfold sc; destruct (is_image_render inst); lia).
    set (sc' := if sc =? 0 then infinite_sample_count_ hdr else sc).
    assert (Hsc' : 0 <= sc' < 2147483648)
      by (unfold sc'; destruct (sc =? 0); lia).
    clearbody sc'. unfold max_ii, square_i.
    rewrite (@to_int_small (p * p)) by (change (2 ^ 31) with 2147483648; nia).
    rewrite !to_int_small by (change (2 ^ 31) with 2147483648; nia).
    rewrite wrap64_small by lia. lia.
Qed.

(** X14.  The sample count that [init] stores covers the target: it is a
    multiple of the motion blur step count, it is not below the target
    sample count, and it exceeds the target by less than
    [motion_blur_steps_ * (dof_sample_count_ + 1)], as long as the count
    fits its 64-bit member. *)
Theorem init_sample_count_covers_target
    (inst : Inst) (scene : Scene) (s : Sampling) :
  0 <= infinite_sample_count_ hdr ->
  0 < motion_blur_steps_ (init hdr inst scene s) ->
  0 < dof_sample_count_ (init hdr inst scene s) ->
  (init_pre_jitter_sample_count hdr inst scene
   + dof_sample_count_ (init hdr inst scene s))
  * motion_blur_steps_ (init hdr inst scene s) < 2 ^ 64 ->
  (motion_blur_steps_ (init hdr inst scene s)
   | sample_count_ (init hdr inst scene s))
  /\ init_target_sample_count hdr inst scene
     <= sample_count_ (init hdr inst scene s)
  /\ sample_count_ (init hdr inst scene s)
     < init_target_sample_count hdr inst scene
       + motion_blur_steps_ (init hdr inst scene s)
         * (dof_sample_count_ (init hdr inst scene s) + 1).
Proof.
  intros Hinf.
  pose proof (init_target_sample_count_nonneg hdr inst scene Hinf) as Htarget.
  unfold init, init_pre_jitter_sample_count.
  set (T := init_target_sample_count hdr inst scene) in *.
  set (m := init_motion_blur_steps inst scene).
  destruct (init_dof hdr scene (divide_ceil_u T m)) as [[ring c] J] eqn:Hdof.
  cbn [motion_blur_steps_ dof_sample_count_ sample_count_ set_clamp_data
       set_sample_count set_dof set_motion_blur_steps].
  intros Hm Hc Hfit.
  destruct (@divide_ceil_u_bounds T m Htarget Hm) as [Hpre0 Hpre1].
  assert (Hpre2 : T <= divide_ceil_u T m * m).
  { unfold divide_ceil_u.
    pose proof (Z.mul_div_le (T + m - 1) m Hm).
    pose proof (Z.mod_pos_bound (T + m - 1) m Hm).
    pose proof (Z.div_mod (T + m - 1) m ltac:(lia)). nia. }
  set (pre := divide_ceil_u T m) in *.
  assert (HJ : pre <= J < pre + c).
  { unfold init_dof in Hdof.
    destruct (flag_dof_jitter scene).
    - injection Hdof as _ Hc' HJ.
      set (c' := wrap64 (sampling_web_sample_count_get _ _)) in *.
      subst c.
      destruct (@divide_ceil_u_bounds pre c' Hpre0 Hc) as [Hq0 Hq1].
      assert (Hq2 : pre <= divide_ceil_u pre c' * c').
      { unfold divide_ceil_u.
        pose proof (Z.mod_pos_bound (pre + c' - 1) c' Hc).
        pose proof (Z.div_mod (pre + c' - 1) c' ltac:(lia)). nia. }
      rewrite wrap64_small in HJ by nia. lia.
    - injection Hdof as _ Hc' HJ. lia. }
  rewrite wrap64_small by nia.
  split; [exists J; reflexivity|]. nia.
Qed.

End InitFacts.

Lemma init_target_sample_count_edges_witness :
  1 <= init_target_sample_count hdr_example inst_render
         {| taa_render_samples := 0; taa_samples := 0;
            motion_blur_steps := 1; flag_dof_jitter := false;
            flag_taa_reprojection := true; mode_mblur := false;
            preview_pixel_size := 1;
            clamp_surface_direct := Fl.zero;
            clamp_surface_indirect := Fl.zero;
            clamp_volume_direct := Fl.zero;
            clamp_volume_indirect := Fl.zero |}
  /\ init_target_sample_count hdr_example inst_render
       {| taa_render_samples := 0; taa_samples := 0;
          motion_blur_steps := 1; flag_dof_jitter := false;
          flag_taa_reprojection := true; mode_mblur := false;
          preview_pixel_size := 1;
          clamp_surface_direct := Fl.zero;
          clamp_surface_indirect := Fl.zero;
          clamp_volume_direct := Fl.zero;
          clamp_volume_indirect := Fl.zero |} = 1.
Proof.
  destruct (@init_target_sample_count_edges hdr_example inst_render
              {| taa_render_samples := 0; taa_samples := 0;
                 motion_blur_steps := 1; flag_dof_jitter := false;
                 flag_taa_reprojection := true; mode_mblur := false;
                 preview_pixel_size := 1;
                 clamp_surface_direct := Fl.zero;
                 clamp_surface_indirect := Fl.zero;
                 clamp_volume_direct := Fl.zero;
                 clamp_volume_indirect := Fl.zero |})
    as (Hrender & _ & _).
  destruct Hrender as [Hone Hexact].
  - reflexivity.
  - reflexivity.
  - split; [exact Hone|]. apply Hexact.
    + simpl. lia.
    + reflexivity.
Defined.

Lemma init_sample_count_covers_target_witness :
  (motion_blur_steps_ (init hdr_example inst_render scene_example fresh)
   | sample_count_ (init hdr_example inst_render scene_example fresh))
  /\ init_target_sample_count hdr_example inst_render scene_example
     <= sample_count_ (init hdr_example inst_render scene_example fresh)
  /\ sample_count_ (init hdr_example inst_render scene_example fresh)
     < init_target_sample_count hdr_example inst_render scene_example
       + motion_blur_steps_ (init hdr_example inst_render scene_example fresh)
         * (dof_sample_count_
              (init hdr_example inst_render scene_example fresh) + 1).
Proof.
  apply (@init_sample_count_covers_target hdr_example inst_render
           scene_example fresh).
  - simpl. lia.
  - vm_compute. reflexivity.
  - vm_compute. reflexivity.
  - vm_compute. reflexivity.
Defined.

(* ------------------------------------------------------------------ *)
(** ** [init] on a light probe *)

(** X15.  An initialisation from a light probe restarts the absolute sample
    index and asks for at least one sample, whatever the stored number of
    bake samples is (zero and negative numbers included); the count fits an
    [int]. *)
Theorem init_probe_sample_count (grid_bake_samples : Z) (s : Sampling) :
  sample_ (init_probe grid_bake_samples s) = 0
  /\ 1 <= sample_count_ (init_probe grid_bake_samples s) < 2 ^ 31
  /\ (1 <= grid_bake_samples < 2 ^ 31 ->
      sample_count_ (init_probe grid_bake_samples s) = grid_bake_samples).
Proof.
  unfold init_probe.
  cbn [sample_ sample_count_ set_sample set_sample_count].
  split; [reflexivity|].
  unfold max_ii. rewrite (@to_int_small 1) by (simpl; lia).
  assert (Hrange : - 2 ^ 31 <= to_int grid_bake_samples < 2 ^ 31).
  { unfold to_int.
    pose proof (Z.mod_pos_bound (grid_bake_samples + 2 ^ 31) (2 ^ 32)
                  ltac:(lia)).
    change (2 ^ 32) with (2 * 2 ^ 31) in *. lia. }
  change (2 ^ 31) with 2147483648 in *.
  assert (H64 : 2 ^ 64 = 18446744073709551616) by reflexivity.
  rewrite wrap64_small by lia.
  split; [lia|].
  intros Hn. rewrite to_int_small by (change (2 ^ 31) with 2147483648; lia).
  lia.
Qed.

(* ------------------------------------------------------------------ *)
(** ** The web pattern, exactly *)

Section WebFacts.

Variable hdr : Header.

Let density : Z := dof_web_density_ hdr.
Let W (ring : Z) : Z := sampling_web_sample_count_get density ring.

(** The loop stops on the ring whose index range holds [s], at the position
    that the last turn computed. *)
Lemma dof_ring_loop_exact (ring_count s : Z) :
  0 <= density -> 0 <= ring_count ->
  W ring_count < 2 ^ 31 -> 0 <= s < W ring_count ->
  forall fuel ring ring_sample_count ring_sample,
    0 <= ring <= ring_count ->
    s - W ring < Z.of_nat fuel ->
    (ring = 0 /\ ring_sample_count = 1 /\ ring_sample = 1)
    \/ (1 <= ring /\ W (ring - 1) <= s
        /\ ring_sample_count = ring * density
        /\ ring_sample = (s - W (ring - 1) + 1) mod ring_sample_count) ->
    exists ring' ring_sample_count' ring_sample',
      dof_ring_loop hdr fuel s ring ring_sample_count ring_sample (W ring)
      = Some (ring', ring_sample_count', ring_sample')
      /\ 0 <= ring' <= ring_count
      /\ web_position density s ring' ring_sample_count' ring_sample'.
Proof.
  intros Hd HR HW31 Hs.
  induction fuel as [|fuel IH];
    intros ring rsc rs Hring Hfuel Hinv.
  - simpl. destruct (Z.geb_spec s (W ring)) as [Hge|Hlt]; [simpl in Hfuel; lia|].
    exists ring, rsc, rs. split; [reflexivity|]. split; [exact Hring|].
    destruct Hinv as [(-> & -> & ->)|(H1 & Hlo & Hc & Hp)].
    + left. change (W 0) with 1 in Hlt. repeat split; lia.
    + right. unfold W in *. repeat split; auto; lia.
  - simpl. destruct (Z.geb_spec s (W ring)) as [Hge|Hlt].
    2:{ exists ring, rsc, rs. split; [reflexivity|]. split; [exact Hring|].
        destruct Hinv as [(-> & -> & ->)|(H1 & Hlo & Hc & Hp)].
        - left. change (W 0) with 1 in Hlt. repeat split; lia.
        - right. unfold W in *. repeat split; auto; lia. }
    assert (Hnext : ring + 1 <= ring_count).
    { destruct (Z_le_gt_dec (ring + 1) ring_count) as [Hle|Hgt]; [exact Hle|].
      assert (ring = ring_count) by lia. subst ring. lia. }
    pose proof (@web_sample_count_mono hdr (ring + 1) ring_count Hd ltac:(lia))
      as Hmono.
    change (W (ring + 1) <= W ring_count) in Hmono.
    pose proof (web_sample_count_succ density ring) as Hsucc.
    fold (W (ring + 1)) in Hsucc. fold (W ring) in Hsucc.
    assert (HW1 : 1 <= W ring)
      by (apply web_sample_count_pos; [exact Hd | lia]).
    assert (Hdpos : 1 <= density).
    { destruct (Z_le_gt_dec 1 density) as [Hle|Hgt]; [exact Hle|].
      assert (Hzero : density = 0) by lia.
      assert (W ring = 1 /\ W ring_count = 1) as [Ha Hb]
        by (unfold W, sampling_web_sample_count_get; rewrite Hzero; lia).
      lia. }
    assert (Hcount : 1 <= (ring + 1) * density < 2 ^ 31) by nia.
    assert (Hr1 : to_int (ring + 1) = ring + 1) by (apply to_int_small; nia).
    rewrite Hr1.
    fold density.
    rewrite (wrap64_small (z := ring + 1)) by nia.
    rewrite (wrap64_small (z := (ring + 1) * density)) by lia.
    rewrite (to_int_small (z := (ring + 1) * density)) by lia.
    destruct (Z.eqb_spec ((ring + 1) * density) 0) as [Heq|_]; [lia|].
    rewrite (to_int_small (z := s - W ring)) by lia.
    rewrite (to_int_small (z := s - W ring + 1)) by lia.
    rewrite (to_int_small (z := W ring + (ring + 1) * density)) by lia.
    rewrite <- Hsucc.
    apply IH.
    + lia.
    + rewrite Nat2Z.inj_succ in Hfuel. lia.
    + right. split; [lia|].
      replace (ring + 1 - 1) with ring by lia.
      split; [lia|]. split; [reflexivity|].
      apply Z.rem_mod_nonneg; lia.
Qed.

(** Without overflow the three narrowing steps of lines 317-323 compute
    [dof_web_index]. *)
Lemma dof_web_sample_index (s : Sampling) :
  1 <= sample_ s <= 2 ^ 31 -> 1 <= density < 2 ^ 31 ->
  (sample_ s - 1) * (density - 1) < 2 ^ 31 ->
  0 < dof_sample_count_ s < 2 ^ 31 ->
  dof_web_sample hdr s
  = dof_ring_loop hdr (Z.to_nat (dof_web_index hdr s)) (dof_web_index hdr s)
                  0 1 1 1.
Proof.
  intros Hs Hd Hfit Hcount.
  unfold dof_web_sample, dof_web_index. fold density.
  destruct (Z.eqb_spec (dof_sample_count_ s) 0) as [Heq|_]; [lia|].
  change (2 ^ 31) with 2147483648 in *.
  assert (H64 : 2 ^ 64 = 18446744073709551616) by reflexivity.
  assert (H31 : 2 ^ 31 = 2147483648) by reflexivity.
  assert (Hsmall : 0 <= sample_ s - 1 < 2147483648) by lia.
  rewrite (wrap64_small (z := sample_ s - 1)) by lia.
  rewrite (to_int_small (z := sample_ s - 1)) by lia.
  rewrite (wrap64_small (z := sample_ s - 1)) by lia.
  rewrite (wrap64_small (z := density - 1)) by lia.
  rewrite (wrap64_small (z := (sample_ s - 1) * (density - 1))) by nia.
  rewrite (to_int_small (z := (sample_ s - 1) * (density - 1))) by nia.
  rewrite (wrap64_small (z := (sample_ s - 1) * (density - 1))) by nia.
  pose proof (Z.mod_pos_bound ((sample_ s - 1) * (density - 1))
                (dof_sample_count_ s) ltac:(lia)) as Hmod.
  rewrite to_int_small by lia.
  reflexivity.
Qed.

Lemma dof_web_sample_exact (s : Sampling) :
  1 <= sample_ s <= 2 ^ 31 -> 1 <= density < 2 ^ 31 ->
  (sample_ s - 1) * (density - 1) < 2 ^ 31 ->
  0 <= dof_ring_count_ s ->
  dof_sample_count_ s = W (dof_ring_count_ s) ->
  dof_sample_count_ s < 2 ^ 31 ->
  exists ring ring_sample_count ring_sample,
    dof_web_sample hdr s = Some (ring, ring_sample_count, ring_sample)
    /\ 0 <= ring <= dof_ring_count_ s
    /\ web_position density (dof_web_index hdr s)
                    ring ring_sample_count ring_sample.
Proof.
  intros Hs Hd Hfit HR Hcount H31.
  assert (Hpos : 1 <= dof_sample_count_ s)
    by (rewrite Hcount; apply web_sample_count_pos; lia).
  rewrite dof_web_sample_index by (auto; lia).
  pose proof (Z.mod_pos_bound ((sample_ s - 1) * (dof_web_density_ hdr - 1))
                (dof_sample_count_ s) ltac:(lia)) as Hmod.
  fold (dof_web_index hdr s) in Hmod.
  change 1 with (W 0) at 3.
  apply dof_ring_loop_exact with (ring_count := dof_ring_count_ s); auto.
  - lia.
  - rewrite <- Hcount. exact H31.
  - rewrite <- Hcount. lia.
  - lia.
  - change (W 0) with 1. rewrite Z2Nat.id by lia. lia.
Qed.

Lemma succ_mod_inj (c x y : Z) :
  0 <= x < c -> 0 <= y < c -> (x + 1) mod c = (y + 1) mod c -> x = y.
Proof.
  intros Hx Hy Heq.
  destruct (Z.eq_dec (x + 1) c) as [Hxc|Hxc];
    destruct (Z.eq_dec (y + 1) c) as [Hyc|Hyc].
  - lia.
  - rewrite Hxc, Z.mod_same in Heq by lia.
    rewrite Z.mod_small in Heq by lia. lia.
  - rewrite Hyc, Z.mod_same in Heq by lia.
    rewrite Z.mod_small in Heq by lia. lia.
  - rewrite !Z.mod_small in Heq by lia. lia.
Qed.

Lemma mod_eq_coprime (n m a b : Z) :
  0 < n -> Z.gcd m n = 1 -> Z.abs (a - b) < n ->
  (a * m) mod n = (b * m) mod n -> a = b.
Proof.
  intros Hn Hgcd Habs Heq.
  assert (Hdiv : (n | m * (a - b))).
  { exists ((a * m) / n - (b * m) / n).
    pose proof (Z.div_mod (a * m) n ltac:(lia)).
    pose proof (Z.div_mod (b * m) n ltac:(lia)). nia. }
  apply Z.gauss in Hdiv; [|rewrite Z.gcd_comm; exact Hgcd].
  destruct Hdiv as [k Hk].
  assert (k = 0) by nia. lia.
Qed.

(** X16.  The position that [dof_disk_sample_get] returns, exactly: the
    sample index is turned into the pattern index
    [(sample_ - 1) * (density - 1) mod dof_sample_count_]; index 0 is the
    centre, and an index inside the range of ring [ring] gives the radius
    [ring / dof_ring_count_] and the angle of the position
    [(offset + 1) mod (ring * density)] among the [ring * density] samples
    of that ring. *)
Theorem dof_disk_sample_position (s : Sampling) :
  1 <= sample_ s <= 2 ^ 31 ->
  1 <= dof_web_density_ hdr < 2 ^ 31 ->
  (sample_ s - 1) * (dof_web_density_ hdr - 1) < 2 ^ 31 ->
  0 < dof_ring_count_ s ->
  dof_sample_count_ s
  = sampling_web_sample_count_get (dof_web_density_ hdr) (dof_ring_count_ s) ->
  dof_sample_count_ s < 2 ^ 31 ->
  exists ring ring_sample_count ring_sample,
    web_position (dof_web_density_ hdr) (dof_web_index hdr s)
                 ring ring_sample_count ring_sample
    /\ 0 <= ring <= dof_ring_count_ s
    /\ dof_disk_sample_get hdr s
       = Some ((IZR ring / IZR (dof_ring_count_ s))%R,
               (2 * PI * IZR ring_sample / IZR ring_sample_count)%R).
Proof.
  intros Hs Hd Hfit HR Hcount H31.
  destruct (@dof_web_sample_exact s Hs Hd Hfit ltac:(lia) Hcount H31)
    as (ring & rsc & rs & Hweb & Hrange & Hpos).
  exists ring, rsc, rs. split; [exact Hpos|]. split; [exact Hrange|].
  unfold dof_disk_sample_get. rewrite Hweb.
  destruct (Z.eqb_spec (dof_ring_count_ s) 0) as [Heq|_]; [lia|].
  reflexivity.
Qed.

(** X17.  The traversal does not choose a web position twice in a short
    interval: when the stride [density - 1] is coprime to the size of the
    pattern, two different sample indices that are less than
    [dof_sample_count_] apart get different positions (a different radius,
    or the same radius and a different angle). *)
Theorem dof_disk_sample_no_repeat (s : Sampling) (a b : Z) :
  a <> b ->
  Z.abs (a - b) < dof_sample_count_ s ->
  Z.gcd (dof_web_density_ hdr - 1) (dof_sample_count_ s) = 1 ->
  1 <= a <= 2 ^ 31 ->
  1 <= b <= 2 ^ 31 ->
  1 <= dof_web_density_ hdr < 2 ^ 31 ->
  (a - 1) * (dof_web_density_ hdr - 1) < 2 ^ 31 ->
  (b - 1) * (dof_web_density_ hdr - 1) < 2 ^ 31 ->
  0 < dof_ring_count_ s ->
  dof_sample_count_ s
  = sampling_web_sample_count_get (dof_web_density_ hdr) (dof_ring_count_ s) ->
  dof_sample_count_ s < 2 ^ 31 ->
  exists radius_a theta_a radius_b theta_b,
    dof_disk_sample_get hdr (set_sample a s) = Some (radius_a, theta_a)
    /\ dof_disk_sample_get hdr (set_sample b s) = Some (radius_b, theta_b)
    /\ (radius_a <> radius_b \/ theta_a <> theta_b).
Proof.
  intros Hab Habs Hgcd Ha Hb Hd Hfa Hfb HR Hcount H31.
  assert (HN : 1 <= dof_sample_count_ s)
    by (rewrite Hcount; apply web_sample_count_pos; lia).
  destruct (@dof_web_sample_exact (set_sample a s) Ha Hd Hfa ltac:(simpl; lia)
              Hcount H31)
    as (ra & ca & pa & Hwa & Hra & Hpa).
  destruct (@dof_web_sample_exact (set_sample b s) Hb Hd Hfb ltac:(simpl; lia)
              Hcount H31)
    as (rb & cb & pb & Hwb & Hrb & Hpb).
  cbn [dof_ring_count_ set_sample] in Hra, Hrb.
  unfold dof_disk_sample_get. rewrite Hwa, Hwb.
  cbn [dof_ring_count_ set_sample].
  destruct (Z.eqb_spec (dof_ring_count_ s) 0) as [Heq|_]; [lia|].
  do 4 eexists. split; [reflexivity|]. split; [reflexivity|].
  assert (HRc : (IZR (dof_ring_count_ s) <> 0)%R)
    by (apply not_0_IZR; lia).
  assert (Hidx : dof_web_index hdr (set_sample a s)
                 <> dof_web_index hdr (set_sample b s)).
  { unfold dof_web_index. cbn [sample_ dof_sample_count_ set_sample].
    intros Heq. apply Hab.
    assert (a - 1 = b - 1); [|lia].
    apply mod_eq_coprime
      with (n := dof_sample_count_ s) (m := dof_web_density_ hdr - 1);
      auto; lia. }
  destruct (Z.eq_dec ra rb) as [Hring|Hring].
  2:{ left. intros Heq. apply Hring. apply eq_IZR.
      replace (IZR ra)
        with (IZR ra / IZR (dof_ring_count_ s) * IZR (dof_ring_count_ s))%R
        by (field; exact HRc).
      rewrite Heq. field. exact HRc. }
  right. subst rb.
  destruct Hpa as [(Hia & Hra0 & _ & _)|(Hra1 & Hia & Hca & Hpa)];
    destruct Hpb as [(Hib & Hrb0 & _ & _)|(Hrb1 & Hib & Hcb & Hpb)];
    try lia.
  fold density in Hia, Hib, Hca, Hcb, Hpa, Hpb.
  pose proof (web_sample_count_succ density (ra - 1)) as Hsucc.
  replace (ra - 1 + 1) with ra in Hsucc by lia.
  assert (Hc : 0 < ra * density) by nia.
  assert (Hpos : pa <> pb).
  { intros Heq. apply Hidx.
    assert (dof_web_index hdr (set_sample a s)
            - sampling_web_sample_count_get density (ra - 1)
            = dof_web_index hdr (set_sample b s)
              - sampling_web_sample_count_get density (ra - 1)); [|lia].
    apply succ_mod_inj with (c := ra * density); try lia.
    rewrite <- Hca at 1. rewrite <- Hpa.
    rewrite <- Hcb. rewrite <- Hpb. exact Heq. }
  subst ca cb. fold density.
  pose proof PI_RGT_0 as Hpi.
  assert (Hcr : (IZR (ra * density) <> 0)%R) by (apply not_0_IZR; lia).
  intros Heq. apply Hpos. apply eq_IZR.
  replace (IZR pa)
    with (2 * PI * IZR pa / IZR (ra * density)
          * (IZR (ra * density) / (2 * PI)))%R
    by (field; split; [lra | exact Hcr]).
  rewrite Heq. field. split; [lra | exact Hcr].
Qed.

(** X18.  The traversal is periodic: adding a multiple of
    [dof_sample_count_] to the sample index does not change the returned
    radius and angle, as long as the [int] locals do not overflow. *)
Theorem dof_disk_sample_periodic (s : Sampling) (k : Z) :
  0 <= k ->
  1 <= sample_ s ->
  sample_ s + k * dof_sample_count_ s <= 2 ^ 31 ->
  1 <= dof_web_density_ hdr < 2 ^ 31 ->
  (sample_ s + k * dof_sample_count_ s - 1) * (dof_web_density_ hdr - 1)
  < 2 ^ 31 ->
  0 < dof_sample_count_ s < 2 ^ 31 ->
  dof_disk_sample_get hdr (set_sample (sample_ s + k * dof_sample_count_ s) s)
  = dof_disk_sample_get hdr s.
Proof.
  intros Hk Hs Hend Hd Hfit Hcount.
  assert (Hweb : dof_web_sample hdr
                   (set_sample (sample_ s + k * dof_sample_count_ s) s)
                 = dof_web_sample hdr s).
  { rewrite !dof_web_sample_index;
      cbn [sample_ dof_sample_count_ set_sample]; try (fold density); try nia.
    assert (Hidx : dof_web_index hdr
                     (set_sample (sample_ s + k * dof_sample_count_ s) s)
                   = dof_web_index hdr s).
    { unfold dof_web_index. cbn [sample_ dof_sample_count_ set_sample].
      replace ((sample_ s + k * dof_sample_count_ s - 1)
               * (dof_web_density_ hdr - 1))
        with ((sample_ s - 1) * (dof_web_density_ hdr - 1)
              + k * (dof_web_density_ hdr - 1) * dof_sample_count_ s)
        by ring.
      apply Z.mod_add. lia. }
    rewrite Hidx. reflexivity. }
  unfold dof_disk_sample_get. rewrite Hweb. reflexivity.
Qed.

End WebFacts.

Lemma dof_disk_sample_position_witness :
  exists ring ring_sample_count ring_sample,
    web_position (dof_web_density_ hdr_example)
                 (dof_web_index hdr_example (set_dof 2 19 (set_sample 3 fresh)))
                 ring ring_sample_count ring_sample
    /\ 0 <= ring <= dof_ring_count_ (set_dof 2 19 (set_sample 3 fresh))
    /\ dof_disk_sample_get hdr_example (set_dof 2 19 (set_sample 3 fresh))
       = Some ((IZR ring
                / IZR (dof_ring_count_ (set_dof 2 19 (set_sample 3 fresh))))%R,
               (2 * PI * IZR ring_sample / IZR ring_sample_count)%R).
Proof.
  apply (@dof_disk_sample_position hdr_example
           (set_dof 2 19 (set_sample 3 fresh))).
  - simpl. lia.
  - simpl. lia.
  - simpl. lia.
  - simpl. lia.
  - reflexivity.
  - simpl. lia.
Defined.

Lemma dof_disk_sample_no_repeat_witness :
  exists radius_a theta_a radius_b theta_b,
    dof_disk_sample_get hdr_example (set_sample 2 (set_dof 2 19 fresh))
    = Some (radius_a, theta_a)
    /\ dof_disk_sample_get hdr_example (set_sample 20 (set_dof 2 19 fresh))
       = Some (radius_b, theta_b)
    /\ (radius_a <> radius_b \/ theta_a <> theta_b).
Proof.
  apply (@dof_disk_sample_no_repeat hdr_example (set_dof 2 19 fresh) 2 20).
  - lia.
  - simpl. lia.
  - reflexivity.
  - simpl. lia.
  - simpl. lia.
  - simpl. lia.
  - simpl. lia.
  - simpl. lia.
  - simpl. lia.
  - reflexivity.
  - simpl. lia.
Defined.

Lemma dof_disk_sample_periodic_witness :
  dof_disk_sample_get hdr_example
    (set_sample (sample_ (set_dof 2 19 (set_sample 3 fresh))
                 + 4 * dof_sample_count_ (set_dof 2 19 (set_sample 3 fresh)))
                (set_dof 2 19 (set_sample 3 fresh)))
  = dof_disk_sample_get hdr_example (set_dof 2 19 (set_sample 3 fresh)).
Proof.
  apply (@dof_disk_sample_periodic hdr_example
           (set_dof 2 19 (set_sample 3 fresh)) 4).
  - lia.
  - simpl. lia.
  - simpl. lia.
  - simpl. lia.
  - simpl. lia.
  - simpl. lia.
Defined.

(* ------------------------------------------------------------------ *)
(** ** [init] followed by [dof_disk_sample_get] *)

Section InitThenDof.

Variable hdr : Header.


End InitThenDof.


(* ------------------------------------------------------------------ *)
(** ** Sampling patterns *)

Section MapperFacts.
Local Open Scope R_scope.

Variable square_f : R -> R.
Variable safe_sqrtf : R -> R.

Hypothesis square_f_square : forall v, square_f v = v * v.
Hypothesis safe_sqrtf_sqrt : forall v, 0 <= v -> safe_sqrtf v = sqrt v.

Lemma circle_norm (r omega : R) :
  (r * cos omega) * (r * cos omega) + (r * sin omega) * (r * sin omega)
  = r * r.
Proof.
  pose proof (sin2_cos2 omega) as Hunit. unfold Rsqr in Hunit.
  replace ((r * cos omega) * (r * cos omega)
           + (r * sin omega) * (r * sin omega))
    with (r * r * (sin omega * sin omega + cos omega * cos omega)) by ring.
  rewrite Hunit. ring.
Qed.

(** X20.  [sample_disk] maps the unit square into the unit disk: the
    squared distance of the point to the origin is [rand.x].  The corner
    [(1, 0)] is mapped to the point [(1, 0)]. *)
Theorem sample_disk_inside_unit_disk (rand_x rand_y : R) :
  0 <= rand_x <= 1 ->
  norm2_sq (sample_disk (rand_x, rand_y)) = rand_x
  /\ norm2_sq (sample_disk (rand_x, rand_y)) <= 1
  /\ sample_disk (1, 0) = (1, 0).
Proof.
  intros [Hlo Hhi]. unfold sample_disk, norm2_sq.
  rewrite circle_norm, sqrt_sqrt by exact Hlo.
  split; [reflexivity|]. split; [exact Hhi|].
  rewrite sqrt_1.
  replace (0 * 2 * PI) with 0 by ring.
  rewrite cos_0, sin_0. f_equal; ring.
Qed.

(** X21.  [sample_sphere] returns a point of the unit sphere whose height
    is [2 * rand.x - 1]; [rand.x = 0] gives the pole [(0, 0, -1)]. *)
Theorem sample_sphere_on_unit_sphere (rand_x rand_y : R) :
  0 <= rand_x <= 1 ->
  norm3_sq (sample_sphere square_f safe_sqrtf (rand_x, rand_y)) = 1
  /\ snd (sample_sphere square_f safe_sqrtf (rand_x, rand_y))
     = 2 * rand_x - 1
  /\ sample_sphere square_f safe_sqrtf (0, rand_y) = (0, 0, -1).
Proof.
  intros [Hlo Hhi]. unfold sample_sphere, norm3_sq. cbn [snd].
  rewrite !square_f_square.
  split; [|split].
  - rewrite safe_sqrtf_sqrt by nra.
    rewrite circle_norm, sqrt_sqrt by nra. ring.
  - ring.
  - replace (1 - (0 * 2 - 1) * (0 * 2 - 1)) with 0 by ring.
    rewrite safe_sqrtf_sqrt by lra. rewrite sqrt_0.
    f_equal; [f_equal|]; ring.
Qed.


(** X23.  [sample_ball] returns a point of the unit ball: its squared
    distance to the origin is the square root of [rand.z]. *)
Theorem sample_ball_inside_unit_ball (rand_x rand_y rand_z : R) :
  0 <= rand_x <= 1 ->
  0 <= rand_z <= 1 ->
  norm3_sq (sample_ball square_f (rand_x, rand_y, rand_z)) = sqrt rand_z
  /\ norm3_sq (sample_ball square_f (rand_x, rand_y, rand_z)) <= 1.
Proof.
  intros [Hlo Hhi] [Hzlo Hzhi].
  assert (Hnorm : norm3_sq (sample_ball square_f (rand_x, rand_y, rand_z))
                  = sqrt rand_z).
  { unfold sample_ball, norm3_sq.
    rewrite square_f_square.
    set (z := rand_x * 2 - 1).
    assert (Hz : 0 <= 1 - z * z) by (unfold z; nra).
    rewrite Rmax_right by exact Hz.
    set (r := sqrt (1 - z * z)).
    set (omega := rand_y * 2 * PI).
    set (k := sqrt (sqrt rand_z)).
    replace (r * cos omega * k * (r * cos omega * k)
             + r * sin omega * k * (r * sin omega * k) + z * k * (z * k))
      with (((r * cos omega) * (r * cos omega)
             + (r * sin omega) * (r * sin omega) + z * z) * (k * k)) by ring.
    rewrite circle_norm. unfold r, k.
    rewrite !sqrt_sqrt; [ring | apply sqrt_pos | exact Hz]. }
  split; [exact Hnorm|].
  rewrite Hnorm. rewrite <- sqrt_1. apply sqrt_le_1_alt. exact Hzhi.
Qed.

(** X24.  [sample_spiral] keeps the radius of [sample_disk]: the squared
    distance of the point to the origin is [rand.x], whatever the rotation
    is. *)
Theorem sample_spiral_inside_unit_disk (rand_x rand_y : R) :
  0 <= rand_x <= 1 ->
  norm2_sq (sample_spiral (rand_x, rand_y)) = rand_x
  /\ norm2_sq (sample_spiral (rand_x, rand_y)) <= 1.
Proof.
  intros [Hlo Hhi]. unfold sample_spiral, norm2_sq.
  rewrite circle_norm, sqrt_sqrt by exact Hlo.
  split; [reflexivity | exact Hhi].
Qed.

End MapperFacts.

Lemma sample_disk_inside_unit_disk_witness :
  (norm2_sq (sample_disk (1 / 4, 1 / 2)) = 1 / 4
   /\ norm2_sq (sample_disk (1 / 4, 1 / 2)) <= 1
   /\ sample_disk (1, 0) = (1, 0))%R.
Proof.
  apply (@sample_disk_inside_unit_disk (1 / 4)%R (1 / 2)%R). lra.
Defined.

Lemma sample_sphere_on_unit_sphere_witness :
  (norm3_sq (sample_sphere (fun v => v * v) sqrt (1 / 4, 1 / 2)) = 1
   /\ snd (sample_sphere (fun v => v * v) sqrt (1 / 4, 1 / 2))
      = 2 * (1 / 4) - 1
   /\ sample_sphere (fun v => v * v) sqrt (0, 1 / 2) = (0, 0, -1))%R.
Proof.
  apply (@sample_sphere_on_unit_sphere (fun v => v * v)%R sqrt).
  - intros v. reflexivity.
  - intros v Hv. reflexivity.
  - lra.
Defined.


Lemma sample_ball_inside_unit_ball_witness :
  (norm3_sq (sample_ball (fun v => v * v) (1 / 4, 1 / 2, 1 / 3))
   = sqrt (1 / 3)
   /\ norm3_sq (sample_ball (fun v => v * v) (1 / 4, 1 / 2, 1 / 3)) <= 1)%R.
Proof.
  apply (@sample_ball_inside_unit_ball (fun v => v * v)%R).
  - intros v. reflexivity.
  - lra.
  - lra.
Defined.

Lemma sample_spiral_inside_unit_disk_witness :
  (norm2_sq (sample_spiral (1 / 4, 1 / 2)) = 1 / 4
   /\ norm2_sq (sample_spiral (1 / 4, 1 / 2)) <= 1)%R.
Proof.
  apply (@sample_spiral_inside_unit_disk (1 / 4)%R (1 / 2)%R). lra.
Defined.

(* ------------------------------------------------------------------ *)
(** ** Inversion of a CDF, entry by entry *)

Section InvertEntries.

(** The entry [u] of the inverted table: the bracket that the search finds,
    the numbers at its two ends and the number that is stored. *)
Lemma cdf_invert_entry (cdf inv : list float) (u : nat) :
  cdf_invert_assert cdf = true ->
  nondecreasing cdf = true ->
  (1 < length inv)%nat ->
  (u < length inv)%nat ->
  exists (i : nat) (x lo hi : Q),
    cdf_invert_query (length inv) u = Fin x
    /\ (1 <= i < length cdf)%nat
    /\ at_ cdf (i - 1) = Fin lo
    /\ at_ cdf i = Fin hi
    /\ (lo < x)%Q /\ (x <= hi)%Q
    /\ (forall j, (1 <= j < i)%nat ->
          exists y, at_ cdf j = Fin y /\ (y < x)%Q)
    /\ at_ (cdf_invert cdf inv) u
       = Fin ((inject_Z (Z.of_nat i) + (x + - hi) / (hi + - lo))
              / inject_Z (Z.of_nat (length cdf) - 1)).
Proof.
  intros Hassert Hnd Hm Hu.
  destruct (cdf_entries_unit cdf Hassert Hnd)
    as (Hlen & (x0 & H0 & Hx0) & (x1 & H1 & Hx1) & Hfin).
  destruct (cdf_invert_query_fin u Hm) as (q & Hq & Hrange & _).
  destruct (@find_seq_exists (fun i => Fl.ge (at_ cdf i) (Fin q))
              (length cdf - 1) 1 (length cdf - 1)) as [i Hfind];
    [lia | |].
  { rewrite H1. unfold Fl.ge. apply fl_le_fin. lra. }
  pose proof (find_seq_some _ _ _ Hfind) as (Hi & Hmatch & Hbefore).
  cbv beta in Hmatch, Hbefore.
  destruct (Hfin i ltac:(lia)) as (y & Hy & _).
  rewrite Hy in Hmatch. unfold Fl.ge in Hmatch. apply fl_le_fin in Hmatch.
  assert (Hlow : forall j, (1 <= j < i)%nat ->
                   exists y', at_ cdf j = Fin y' /\ (y' < q)%Q).
  { intros j Hj.
    destruct (Hfin j ltac:(lia)) as (y' & Hy' & _).
    exists y'. split; [exact Hy'|].
    pose proof (Hbefore j ltac:(lia)) as Hno.
    rewrite Hy' in Hno. unfold Fl.ge in Hno. simpl in Hno.
    apply Qnot_le_lt. intros Hle. apply Qle_bool_iff in Hle. congruence. }
  assert (Hprev : exists y', at_ cdf (i - 1) = Fin y' /\ (y' < q)%Q).
  { destruct (Nat.eq_dec i 1) as [->|Hi1].
    - exists x0. split; [exact H0 | lra].
    - apply Hlow. lia. }
  destruct Hprev as (y' & Hy' & Hlt).
  exists i, q, y', y.
  split; [exact Hq|]. split; [lia|]. split; [exact Hy'|].
  split; [exact Hy|]. split; [exact Hlt|]. split; [exact Hmatch|].
  split; [exact Hlow|].
  unfold at_ at 1. rewrite cdf_invert_sweep, sweep_nth by exact Hu.
  apply Nat.ltb_lt in Hu. rewrite Hu, Hq.
  unfold cdf_invert_search. rewrite Hfind.
  unfold cdf_invert_value, cdf_invert_divisor. rewrite Hy, Hy'.
  unfold Fl.sub, Fl.neg, Fl.add, Fl.of_Z.
  rewrite fl_div_fin by lra.
  rewrite fl_div_fin by (apply inject_Z_pos; lia).
  reflexivity.
Qed.

(** The interpolation weight of a bracket lies in (-1, 0]. *)
Lemma bracket_weight (x lo hi : Q) :
  (lo < x)%Q -> (x <= hi)%Q ->
  (- (1) < (x + - hi) / (hi + - lo))%Q
  /\ ((x + - hi) / (hi + - lo) <= 0)%Q
  /\ ((x + - hi) / (hi + - lo) * (hi + - lo) == x + - hi)%Q.
Proof.
  intros Hlo Hhi.
  assert (Hd : (0 < hi + - lo)%Q) by lra.
  split; [|split].
  - apply Qlt_shift_div_l; [exact Hd | lra].
  - apply Qle_shift_div_r; [exact Hd | lra].
  - field. lra.
Qed.

(** X25.  Inversion round trip.  For a CDF that passes the assertion and
    never decreases, the entry [u] of the inverted table is a finite number
    [q] in (0, 1]; the position [q * (N - 1)] lies in the bracket
    [(i - 1, i]] that the search found, and the linear interpolation of the
    CDF at that position gives back the query point of the entry. *)
Theorem cdf_invert_round_trip (cdf inverted_cdf : list float) (u : nat) :
  cdf_invert_assert cdf = true ->
  nondecreasing cdf = true ->
  (1 < length inverted_cdf)%nat ->
  (u < length inverted_cdf)%nat ->
  exists (i : nat) (x lo hi q : Q),
    cdf_invert_query (length inverted_cdf) u = Fin x
    /\ (1 <= i < length cdf)%nat
    /\ at_ cdf (i - 1) = Fin lo
    /\ at_ cdf i = Fin hi
    /\ at_ (cdf_invert cdf inverted_cdf) u = Fin q
    /\ (0 < q)%Q /\ (q <= 1)%Q
    /\ (inject_Z (Z.of_nat i) - 1
        < q * inject_Z (Z.of_nat (length cdf) - 1))%Q
    /\ (q * inject_Z (Z.of_nat (length cdf) - 1) <= inject_Z (Z.of_nat i))%Q
    /\ (lo + (q * inject_Z (Z.of_nat (length cdf) - 1)
              - (inject_Z (Z.of_nat i) - 1)) * (hi - lo) == x)%Q.
Proof.
  intros Hassert Hnd Hm Hu.
  destruct (cdf_invert_entry cdf inverted_cdf Hassert Hnd Hm Hu)
    as (i & x & lo & hi & Hq & Hi & Hlo & Hhi & Hlt & Hle & _ & Hval).
  destruct (bracket_weight Hlt Hle) as (Ht1 & Ht0 & Htd).
  set (t := ((x + - hi) / (hi + - lo))%Q) in *.
  set (n1 := inject_Z (Z.of_nat (length cdf) - 1)) in *.
  set (zi := inject_Z (Z.of_nat i)) in *.
  assert (Hn1 : (0 < n1)%Q).
  { unfold n1. change 0%Q with (inject_Z 0). rewrite <- Zlt_Qlt. lia. }
  assert (Hzi : (1 <= zi)%Q /\ (zi <= n1)%Q).
  { unfold zi, n1. change 1%Q with (inject_Z 1).
    rewrite <- !Zle_Qle. lia. }
  assert (Hpos : ((zi + t) / n1 * n1 == zi + t)%Q) by (field; lra).
  exists i, x, lo, hi, ((zi + t) / n1)%Q.
  split; [exact Hq|]. split; [exact Hi|]. split; [exact Hlo|].
  split; [exact Hhi|]. split; [exact Hval|].
  split; [apply Qlt_shift_div_l; [exact Hn1 | lra]|].
  split; [apply Qle_shift_div_r; [exact Hn1 | lra]|].
  rewrite Hpos. fold zi.
  split; [lra|]. split; [lra|].
  clearbody t. clear Hval Hpos.
  setoid_replace (lo + (zi + t - (zi - 1)) * (hi - lo))%Q
    with (lo + (hi + - lo) + t * (hi + - lo))%Q by ring.
  rewrite Htd. ring.
Qed.

End InvertEntries.

Lemma cdf_invert_round_trip_witness :
  exists (i : nat) (x lo hi q : Q),
    cdf_invert_query (length [NaN; NaN; NaN; NaN]) 2 = Fin x
    /\ (1 <= i < length [Fin 0; Fin (1 # 10); Fin 1])%nat
    /\ at_ [Fin 0; Fin (1 # 10); Fin 1] (i - 1) = Fin lo
    /\ at_ [Fin 0; Fin (1 # 10); Fin 1] i = Fin hi
    /\ at_ (cdf_invert [Fin 0; Fin (1 # 10); Fin 1] [NaN; NaN; NaN; NaN]) 2
       = Fin q
    /\ (0 < q)%Q /\ (q <= 1)%Q
    /\ (inject_Z (Z.of_nat i) - 1
        < q * inject_Z
                (Z.of_nat (length [Fin 0; Fin (1 # 10); Fin 1]) - 1))%Q
    /\ (q * inject_Z (Z.of_nat (length [Fin 0; Fin (1 # 10); Fin 1]) - 1)
        <= inject_Z (Z.of_nat i))%Q
    /\ (lo + (q * inject_Z
                     (Z.of_nat (length [Fin 0; Fin (1 # 10); Fin 1]) - 1)
              - (inject_Z (Z.of_nat i) - 1)) * (hi - lo) == x)%Q.
Proof.
  apply (@cdf_invert_round_trip [Fin 0; Fin (1 # 10); Fin 1]
           [NaN; NaN; NaN; NaN] 2%nat).
  - reflexivity.
  - reflexivity.
  - simpl. lia.
  - simpl. lia.
Defined.

(* ------------------------------------------------------------------ *)
(** ** The inverted table is ordered *)

Section InvertOrder.

Lemma Qdiv_le_mono (a b c : Q) :
  (0 < c)%Q -> (a <= b)%Q -> (a / c <= b / c)%Q.
Proof.
  intros Hc Hab. unfold Qdiv. apply Qmult_le_compat_r; [exact Hab|].
  apply Qlt_le_weak, Qinv_lt_0_compat. exact Hc.
Qed.

(** The query points do not decrease with the index of the entry. *)
Lemma cdf_invert_query_mono (m u : nat) (x x' : Q) :
  (1 < m)%nat ->
  cdf_invert_query m u = Fin x ->
  cdf_invert_query m (S u) = Fin x' ->
  (x <= x')%Q.
Proof.
  intros Hm Hx Hx'.
  destruct (cdf_invert_query_fin u Hm) as (q & Hq & Hr & Hmid & Hlow & Hhigh).
  destruct (cdf_invert_query_fin (S u) Hm)
    as (q' & Hq' & Hr' & Hmid' & Hlow' & Hhigh').
  rewrite Hx in Hq. injection Hq as <-.
  rewrite Hx' in Hq'. injection Hq' as <-.
  assert (Hn1 : (0 < inject_Z (Z.of_nat m - 1))%Q).
  { change 0%Q with (inject_Z 0). rewrite <- Zlt_Qlt. lia. }
  assert (Hv : (inject_Z (Z.of_nat u) / inject_Z (Z.of_nat m - 1)
                <= inject_Z (Z.of_nat (S u)) / inject_Z (Z.of_nat m - 1))%Q).
  { apply Qdiv_le_mono; [exact Hn1|]. rewrite <- Zle_Qle. lia. }
  set (v := (inject_Z (Z.of_nat u) / inject_Z (Z.of_nat m - 1))%Q) in *.
  set (v' := (inject_Z (Z.of_nat (S u)) / inject_Z (Z.of_nat m - 1))%Q) in *.
  clearbody v v'.
  destruct (Qlt_le_dec v (1 # 100000)) as [Ha|Ha];
    destruct (Qlt_le_dec (1 - (1 # 100000)) v) as [Hb|Hb];
    destruct (Qlt_le_dec v' (1 # 100000)) as [Ha'|Ha'];
    destruct (Qlt_le_dec (1 - (1 # 100000)) v') as [Hb'|Hb'];
    try (specialize (Hlow Ha)); try (specialize (Hhigh Hb));
    try (specialize (Hlow' Ha')); try (specialize (Hhigh' Hb'));
    try (specialize (Hmid (conj Ha Hb)));
    try (specialize (Hmid' (conj Ha' Hb')));
    lra.
Qed.

(** X26.  The table that [cdf_invert] fills never decreases from one entry
    to the next, for every CDF that passes the assertion and never
    decreases. *)
Theorem cdf_invert_nondecreasing (cdf inverted_cdf : list float) :
  cdf_invert_assert cdf = true ->
  nondecreasing cdf = true ->
  (1 < length inverted_cdf)%nat ->
  nondecreasing (cdf_invert cdf inverted_cdf) = true.
Proof.
  intros Hassert Hnd Hm.
  apply nondecreasing_pointwise. intros u Hu.
  rewrite cdf_invert_length in Hu.
  destruct (@cdf_invert_entry cdf inverted_cdf u Hassert Hnd Hm ltac:(lia))
    as (i & x & lo & hi & Hq & Hi & Hlo & Hhi & Hlt & Hle & Hlow & Hval).
  destruct (@cdf_invert_entry cdf inverted_cdf (S u) Hassert Hnd Hm Hu)
    as (i' & x' & lo' & hi' & Hq' & Hi' & Hlo' & Hhi' & Hlt' & Hle' & Hlow'
        & Hval').
  rewrite Hval, Hval'. apply fl_le_fin.
  pose proof (cdf_invert_query_mono u Hm Hq Hq') as Hx.
  destruct (bracket_weight Hlt Hle) as (Ht1 & Ht0 & _).
  destruct (bracket_weight Hlt' Hle') as (Ht1' & Ht0' & _).
  assert (Hn1 : (0 < inject_Z (Z.of_nat (length cdf) - 1))%Q).
  { change 0%Q with (inject_Z 0). rewrite <- Zlt_Qlt. lia. }
  apply Qdiv_le_mono; [exact Hn1|].
  assert (Hii : (i <= i')%nat).
  { destruct (le_lt_dec i i') as [Hok|Hbad]; [exact Hok|].
    destruct (Hlow i' ltac:(lia)) as (y & Hy & Hyx).
    rewrite Hhi' in Hy. injection Hy as <-. lra. }
  destruct (Nat.eq_dec i i') as [<-|Hne].
  - rewrite Hlo in Hlo'. injection Hlo' as <-.
    rewrite Hhi in Hhi'. injection Hhi' as <-.
    apply Qplus_le_r. apply Qdiv_le_mono; lra.
  - assert (Hstep : (inject_Z (Z.of_nat i) + 1 <= inject_Z (Z.of_nat i'))%Q).
    { change 1%Q with (inject_Z 1). rewrite <- inject_Z_plus.
      rewrite <- Zle_Qle. lia. }
    lra.
Qed.


End InvertOrder.

Lemma cdf_invert_nondecreasing_witness :
  nondecreasing
    (cdf_invert [Fin 0; Fin (1 # 10); Fin 1] [NaN; NaN; NaN; NaN]) = true.
Proof.
  apply (@cdf_invert_nondecreasing [Fin 0; Fin (1 # 10); Fin 1]
           [NaN; NaN; NaN; NaN]).
  - reflexivity.
  - reflexivity.
  - simpl. lia.
Defined.

(* ------------------------------------------------------------------ *)
(** ** [cdf_from_curvemapping], and its use by [cdf_invert] *)

Section BuildThenInvert.

Variable curve : float -> float.

(** X27.  [cdf_from_curvemapping] overwrites the vector: the result has the
    length of the argument, its last entry is 1, and it depends on the
    length of the argument only, not on the numbers that the vector held,
    whatever the curve returns. *)
Theorem cdf_from_curvemapping_overwrites (cdf cdf' : list float) :
  (1 < length cdf)%nat ->
  length cdf' = length cdf ->
  length (cdf_from_curvemapping curve cdf) = length cdf
  /\ vlast (cdf_from_curvemapping curve cdf) = Fl.one
  /\ cdf_from_curvemapping curve cdf' = cdf_from_curvemapping curve cdf.
Proof.
  intros Hlen Hsame.
  destruct (@cdf_from_curvemapping_at curve cdf ltac:(lia))
    as (Hl & Hlast & Hat).
  destruct (@cdf_from_curvemapping_at curve cdf' ltac:(lia))
    as (Hl' & Hlast' & Hat').
  split; [exact Hl|]. split; [exact Hlast|].
  apply nth_ext with (d := NaN) (d' := NaN); [congruence|].
  intros j Hj. rewrite Hl', Hsame in Hj.
  destruct (Nat.eq_dec j (length cdf - 1)) as [->|Hne].
  - unfold vlast, at_ in Hlast, Hlast'.
    rewrite Hl in Hlast. rewrite Hl', Hsame in Hlast'. congruence.
  - pose proof (Hat j ltac:(lia)) as Hj1.
    pose proof (Hat' j ltac:(lia)) as Hj2.
    unfold at_ in Hj1, Hj2. rewrite Hj1, Hj2, Hsame. reflexivity.
Qed.


End BuildThenInvert.

Lemma cdf_from_curvemapping_overwrites_witness :
  length (cdf_from_curvemapping (fun x => x) [NaN; NaN; NaN]) = 3%nat
  /\ vlast (cdf_from_curvemapping (fun x => x) [NaN; NaN; NaN]) = Fl.one
  /\ cdf_from_curvemapping (fun x => x) [Fin 7; Inf true; Fin 1]
     = cdf_from_curvemapping (fun x => x) [NaN; NaN; NaN].
Proof.
  apply (@cdf_from_curvemapping_overwrites (fun x => x)
           [NaN; NaN; NaN] [Fin 7; Inf true; Fin 1]).
  - simpl. lia.
  - reflexivity.
Defined.

